(** * Price calculator and catalog resolver of the laser-studio backend

    A shallow embedding of [src/main.py] ([list_services], [list_packages],
    [calculate_price], the seed catalog, [list_faqs], [test_database]) and
    of the catalog schemas of [src/schemas.py], with the properties of the
    specification stated over it.

    Layout:
    - Python values, dictionaries, exceptions and float arithmetic;
    - the schemas [Service] and [Package];
    - the collaborators that live outside the two source files (the
      [database] module and pydantic's validating constructors);
    - the resolver and the calculator, transcribed statement by statement;
    - IEEE binary64 floats (what a Python [float] is) and, for the order
      laws, exact rationals;
    - the other endpoints: the schema [FAQ], [list_faqs], [test_database];
    - lemmas and the theorems of the specification;
    - further properties of the resolvers, of the calculator and of the
      other endpoints. *)

From Stdlib Require Import ZArith QArith Qround Floats Lia.
From stdpp Require Import gmap strings list.

Set Warnings "-inexact-float,-register-all".

Open Scope Z_scope.

(** ** Exceptions *)

(** The exceptions the modelled code can meet.  [KeyError] is what a
    subscript [d[k]] raises on a missing key, [ValidationError] what a
    pydantic constructor raises, [PersistenceError] stands for anything the
    database module raises. All of them derive from [Exception]. *)
Inductive exn : Type :=
| KeyError (key : string)
| ValidationError
| PersistenceError (msg : string).

(** A computation that returns a value or raises. *)
Inductive exc (A : Type) : Type :=
| Ok (a : A)
| Raise (e : exn).
Arguments Ok {A} a.
Arguments Raise {A} e.

#[export] Instance exc_ret : MRet exc := @Ok.
#[export] Instance exc_bind : MBind exc :=
  λ A B f m, match m with Ok a => f a | Raise e => Raise e end.

(** ** Float arithmetic

    The operations [calculate_price] performs on Python floats. The
    calculator is written once over this interface; [Binary64] below gives
    the operations their IEEE meaning. *)
Class PyFloat (F : Type) : Type := {
  float_of_int : Z → F;           (* float(n), also an int literal given to a float field *)
  float_add : F → F → F;          (* x + y *)
  float_mul : F → F → F;          (* x * y *)
  float_lit_0_75 : F;             (* the literal 0.75 *)
  float_round2 : F → F;           (* round(x, 2) *)
  float_le : F → F → bool         (* x <= y *)
}.

(** ** Python values and dictionaries *)

(** What a stored document or a line item can hold. *)
Inductive value (F : Type) : Type :=
| VNone
| VBool (b : bool)
| VInt (n : Z)
| VFloat (x : F)
| VStr (s : string)
| VList (l : list (value F)).
Arguments VNone {F}.
Arguments VBool {F} b.
Arguments VInt {F} n.
Arguments VFloat {F} x.
Arguments VStr {F} s.
Arguments VList {F} l.

(** A [dict] with string keys. *)
Abbreviation dict F := (gmap string (value F)).

(** [d[k]] *)
Definition getitem {A : Type} (d : gmap string A) (k : string) : exc A :=
  match d !! k with
  | Some v => Ok v
  | None => Raise (KeyError k)
  end.

(** ** Schemas ([src/schemas.py]) *)

Module Service.
Record t (F : Type) : Type := mk {
  name : string;
  category : string;
  code : string;
  price_single : F;
  price_package_6x : option F;
  duration_min : Z
}.
Arguments mk {F}.
Arguments name {F}.
Arguments category {F}.
Arguments code {F}.
Arguments price_single {F}.
Arguments price_package_6x {F}.
Arguments duration_min {F}.

(** [Service.model_fields]: the declared field names. *)
Definition model_fields : list string :=
  ["name"; "category"; "code"; "price_single"; "price_package_6x"; "duration_min"]%string.
End Service.

Module Package.
Record t (F : Type) : Type := mk {
  title : string;
  description : option string;
  code : string;
  included_codes : list string;
  price_single : F;
  promo_6_plus_2 : bool
}.
Arguments mk {F}.
Arguments title {F}.
Arguments description {F}.
Arguments code {F}.
Arguments included_codes {F}.
Arguments price_single {F}.
Arguments promo_6_plus_2 {F}.

(** [Package.model_fields] *)
Definition model_fields : list string :=
  ["title"; "description"; "code"; "included_codes"; "price_single"; "promo_6_plus_2"]%string.
End Package.

(** ** Request and response of [/api/calc] *)

Module PriceCalcRequest.
Record t : Type := mk {
  selected_codes : list string;
  sessions : Z
}.
End PriceCalcRequest.

Module PriceCalcResponse.
Record t (F : Type) : Type := mk {
  items : list (dict F);
  subtotal : F;
  promo_label : option string;
  total : F
}.
Arguments mk {F}.
Arguments items {F}.
Arguments subtotal {F}.
Arguments promo_label {F}.
Arguments total {F}.
End PriceCalcResponse.

(** ** Collaborators outside the two source files

    [main.py] imports [get_documents] from the [database] module and builds
    catalog entries with pydantic's constructors, [Service] and [Package]
    applied to keyword arguments. Both may raise. The resolver and the calculator
    take them as an environment, so every theorem below holds whatever the
    store returns and whatever the validation accepts. *)
Record Env (F : Type) : Type := mkEnv {
  get_documents : string → exc (list (dict F));
  Service_init : dict F → exc (Service.t F);
  Package_init : dict F → exc (Package.t F)
}.
Arguments mkEnv {F}.
Arguments get_documents {F}.
Arguments Service_init {F}.
Arguments Package_init {F}.

Section Backend.
Context {F : Type} `{PyFloat F}.

(** *** The seed catalog ([main.py], lines 49-80) *)

Definition DEFAULT_SERVICES : list (Service.t F) := [
  Service.mk "Oksels" "Oksels" "OKS" (float_of_int 39) None 15;
  Service.mk "Bikinilijn klein" "Bikinilijn" "BIK-K" (float_of_int 49) None 20;
  Service.mk "Bikinilijn groot" "Bikinilijn" "BIK-G" (float_of_int 69) None 25;
  Service.mk "Onderbenen" "Benen" "BEN-OND" (float_of_int 79) None 30;
  Service.mk "Bovenbenen" "Benen" "BEN-BOV" (float_of_int 89) None 35;
  Service.mk "Hele benen" "Benen" "BEN-HELE" (float_of_int 129) None 55;
  Service.mk "Bovenlip" "Gezicht" "GEZ-LIP" (float_of_int 29) None 10;
  Service.mk "Kin" "Gezicht" "GEZ-KIN" (float_of_int 29) None 10;
  Service.mk "Gehele gelaat" "Gezicht" "GEZ-FULL" (float_of_int 79) None 35;
  Service.mk "Onderarmen" "Armen" "ARM-OND" (float_of_int 59) None 25;
  Service.mk "Hele armen" "Armen" "ARM-HELE" (float_of_int 89) None 35
]%string.

Definition DEFAULT_PACKAGES : list (Package.t F) := [
  Package.mk "Full body"
    (Some "Hele armen + oksels + buik + hele benen + bikinilijn klein")
    "FB-STD" ["ARM-HELE"; "OKS"; "BEN-HELE"; "BIK-K"] (float_of_int 279) true;
  Package.mk "Full body + gelaat"
    (Some "Full body met gehele gelaat als luxere variant")
    "FB-LUX" ["ARM-HELE"; "OKS"; "BEN-HELE"; "BIK-K"; "GEZ-FULL"] (float_of_int 329) true
]%string.

(** *** The resolver ([main.py], lines 83-102) *)

(** [{k: v for k, v in d.items() if k in fields}] *)
Definition project (fields : list string) (d : dict F) : dict F :=
  filter (λ kv, kv.1 ∈ fields) d.

(** [list_services]: the body of the [try] either returns the list built
    from the stored documents, or falls through ([docs] empty), or raises
    (the read, or a constructor); [except Exception: pass] and the final
    [return] give the seed list in the last two cases. *)
Definition list_services (w : Env F) : list (Service.t F) :=
  match
    docs ← get_documents w "service";
    if bool_decide (docs ≠ [])
    then r ← mapM (λ d, Service_init w (project Service.model_fields d)) docs;
         mret (Some r)
    else mret None
  with
  | Ok (Some r) => r
  | Ok None | Raise _ => DEFAULT_SERVICES
  end.

Definition list_packages (w : Env F) : list (Package.t F) :=
  match
    docs ← get_documents w "package";
    if bool_decide (docs ≠ [])
    then r ← mapM (λ d, Package_init w (project Package.model_fields d)) docs;
         mret (Some r)
    else mret None
  with
  | Ok (Some r) => r
  | Ok None | Raise _ => DEFAULT_PACKAGES
  end.

(** *** The calculator ([main.py], lines 114-145) *)

(** [{s.code: s for s in l}]: a later entry replaces an earlier one with
    the same code. *)
Definition services_by_code (l : list (Service.t F)) : gmap string (Service.t F) :=
  foldl (λ m s, <[Service.code s := s]> m) ∅ l.

(** [next((p for p in packages if p.code == code), None)] *)
Definition next_package (packages : list (Package.t F)) (code : string)
  : option (Package.t F) :=
  find (λ p, String.eqb (Package.code p) code) packages.

(** One turn of the [for] loop, on the state [(items, subtotal)]. *)
Definition loop_body (services : gmap string (Service.t F))
    (packages : list (Package.t F))
    (st : list (dict F) * F) (code : string) : exc (list (dict F) * F) :=
  let '(items, subtotal) := st in
  if bool_decide (is_Some (services !! code)) then
    s ← getitem services code;
    let price := Service.price_single s in
    s' ← getitem services code;
    let items := items ++ [list_to_map
      [("code", VStr code); ("name", VStr (Service.name s')); ("price", VFloat price)]%string] in
    let subtotal := float_add subtotal price in
    mret (items, subtotal)
  else
    let pkg := next_package packages code in
    match pkg with
    | Some pkg =>
        let price := Package.price_single pkg in
        let items := items ++ [list_to_map
          [("code", VStr code); ("name", VStr (Package.title pkg));
           ("price", VFloat price); ("package", VBool true)]%string] in
        let subtotal := float_add subtotal price in
        mret (items, subtotal)
    | None => mret (items, subtotal)
    end.

(** [for x in l: st = body(st, x)], stopping at the first exception. *)
Fixpoint for_each {A S : Type} (body : S → A → exc S) (l : list A) (st : S) : exc S :=
  match l with
  | [] => mret st
  | x :: l => st' ← body st x; for_each body l st'
  end.

Definition calculate_price (w : Env F) (payload : PriceCalcRequest.t)
  : exc (PriceCalcResponse.t F) :=
  let services := services_by_code (list_services w) in
  let packages := list_packages w in
  let items := [] in
  let subtotal := float_of_int 0 in
  '(items, subtotal) ← for_each (loop_body services packages)
                         (PriceCalcRequest.selected_codes payload) (items, subtotal);
  let promo_label := None in
  let total := subtotal in
  let '(promo_label, total) :=
    if PriceCalcRequest.sessions payload =? 8
    then (Some "6 + 2 gratis"%string,
          float_round2 (float_mul subtotal float_lit_0_75))
    else (promo_label, total) in
  mret (PriceCalcResponse.mk items (float_round2 subtotal) promo_label
          (float_round2 total)).

(** *** The declared fields as a validator ([schemas.py], lines 20-34)

    The constructors checked against the declared types and bounds. A
    float field takes a float or an int, [ge] bounds are compared with
    [<=], an optional field may be missing or [None]. This is the instance
    the concrete evaluations below run with; the theorems quantify over
    every [Env]. *)

Definition field_str (kw : dict F) (k : string) : exc string :=
  match kw !! k with
  | Some (VStr s) => Ok s
  | _ => Raise ValidationError
  end.

Definition as_float_ge0 (v : value F) : exc F :=
  match v with
  | VFloat x => if float_le (float_of_int 0) x then Ok x else Raise ValidationError
  | VInt n => if 0 <=? n then Ok (float_of_int n) else Raise ValidationError
  | _ => Raise ValidationError
  end.

Definition field_float_ge0 (kw : dict F) (k : string) : exc F :=
  match kw !! k with
  | Some v => as_float_ge0 v
  | None => Raise ValidationError
  end.

Definition as_str (v : value F) : exc string :=
  match v with
  | VStr s => Ok s
  | _ => Raise ValidationError
  end.

Definition Service_validate (kw : dict F) : exc (Service.t F) :=
  name ← field_str kw "name";
  category ← field_str kw "category";
  code ← field_str kw "code";
  price_single ← field_float_ge0 kw "price_single";
  price_package_6x ←
    match kw !! "price_package_6x" with
    | None | Some VNone => Ok None
    | Some v => x ← as_float_ge0 v; mret (Some x)
    end;
  duration_min ←
    match kw !! "duration_min" with
    | Some (VInt n) => if 5 <=? n then Ok n else Raise ValidationError
    | _ => Raise ValidationError
    end;
  mret (Service.mk name category code price_single price_package_6x duration_min).

Definition Package_validate (kw : dict F) : exc (Package.t F) :=
  title ← field_str kw "title";
  description ←
    match kw !! "description" with
    | None | Some VNone => Ok None
    | Some v => s ← as_str v; mret (Some s)
    end;
  code ← field_str kw "code";
  included_codes ←
    match kw !! "included_codes" with
    | Some (VList l) => mapM as_str l
    | _ => Raise ValidationError
    end;
  price_single ← field_float_ge0 kw "price_single";
  promo_6_plus_2 ←
    match kw !! "promo_6_plus_2" with
    | None => Ok true
    | Some (VBool b) => Ok b
    | _ => Raise ValidationError
    end;
  mret (Package.mk title description code included_codes price_single promo_6_plus_2).

(** The environment over a given store. *)
Definition pydantic_env (db : string → exc (list (dict F))) : Env F :=
  mkEnv db Service_validate Package_validate.

End Backend.

(** ** IEEE binary64: the Python float *)

Module Binary64.

(** [float(n)]: the nearest double to the integer [n]. *)
Definition of_int (n : Z) : float :=
  SF2Prim (binary_normalize prec emax n 0 false).

(** [x <= y] as a proposition. *)
Definition fle (x y : float) : Prop := PrimFloat.leb x y = true.

(** The integer nearest to [n / d] for [d > 0], ties to the even one. *)
Definition round_half_even (n d : Z) : Z :=
  let q := n / d in
  match 2 * (n mod d) ?= d with
  | Lt => q
  | Gt => q + 1
  | Eq => if Z.even q then q else q + 1
  end.

(** Every finite double [m * 2^e] is a whole number of units of 2^-1074,
    its magnitude in ulps. *)
Definition ulps (m : positive) (e : Z) : Z := Zpos m * 2 ^ (e + 1074).

(** The magnitude of the double nearest to [a / d] ulps, ties to the even
    mantissa: doubles are [2^j] ulps apart where [j] is 0 below 2^53 ulps
    and grows by one with each binade above. *)
Definition nearest_ulps (a d : Z) : Z :=
  let j := Z.max 0 (Z.log2 (a / d) - 52) in
  round_half_even a (d * 2 ^ j) * 2 ^ j.

(** The float of sign [s] and magnitude [n] ulps; an infinity from 2^1024
    on. *)
Definition of_ulps (s : bool) (n : Z) : spec_float :=
  match n with
  | Zpos _ =>
      let j := Z.max 0 (Z.log2 n - 52) in
      if j <=? 2045
      then S754_finite s (Z.to_pos (n / 2 ^ j)) (j - 1074)
      else S754_infinity s
  | _ => S754_zero s
  end.

(** [round(x, 2)] as CPython computes it for a float: a nan, an infinity
    and a zero come back as they are; a finite [x] is converted exactly
    to the decimal with two digits after the point nearest to it (ties to
    even), here [k / 100], and that decimal is read back as the nearest
    double, keeping the sign of [x]. With two places the decimal always
    reads back as a finite double ([Binary64Laws.round2_finite]), so the
    call has no raising case. *)
Definition round2 (x : float) : float :=
  match Prim2SF x with
  | S754_finite s m e =>
      let k := round_half_even (100 * ulps m e) (2 ^ 1074) in
      SF2Prim (of_ulps s (nearest_ulps (k * 2 ^ 1074) 100))
  | _ => x
  end.

(** The same rounding with the last step done by the correctly rounded
    division of the standard library, [k / 100]; kept to compare. *)
Definition round2_by_division (x : float) : float :=
  match Prim2SF x with
  | S754_finite s m e =>
      let k := if 0 <=? e then Zpos m * 2 ^ e * 100
               else round_half_even (Zpos m * 100) (2 ^ (- e)) in
      match k with
      | Zpos k => SF2Prim (SFdiv prec emax (S754_finite s k 0) (S754_finite false 100 0))
      | _ => SF2Prim (S754_zero s)
      end
  | _ => x
  end.

(** Doubles on which the two definitions are compared: zeros, ties,
    subnormals, the binades around 2^46 and 2^53, the largest double and
    the infinities. *)
Definition samples : list float :=
  [0; 0.001; -0.001; 0.005; 0.015; 0.046; 0.125; 0.375; 1.005; 2.675; 29.25; 39;
   275.25; 0.30000000000000004; 1234567.891; 5e-324; 2.2250738585072014e-308;
   1e15; 1e16; 35184372088832.008; 70368744177664.016; 1125899906842624.2;
   4503599627370496.5; 9007199254740993; 1e22; 1e300; 1.7976931348623157e308;
   -2.675; -1e16; 0.0345; 0.0375; 123456789.125; 0.994999; 0.995; 99.995;
   infinity; neg_infinity]%float.

#[global] Instance py_float : PyFloat float := {|
  float_of_int := of_int;
  float_add := PrimFloat.add;
  float_mul := PrimFloat.mul;
  float_lit_0_75 := 0.75%float;
  float_round2 := round2;
  float_le := PrimFloat.leb
|}.

(** *** What the order laws are proved with *)

(** Magnitudes of doubles, in ulps: a mantissa below 2^53 times a power of
    two, the mantissa at least 2^52 unless the power is 2^0. *)
Definition representable (n : Z) : Prop :=
  ∃ r j, n = r * 2 ^ j ∧ 0 ≤ j ∧ 0 ≤ r < 2 ^ 53 ∧ (0 < j → 2 ^ 52 ≤ r).

(** The floats that are at least zero, and the magnitude of a float in
    ulps (an infinity is above every finite double). *)
Definition nonneg (x : spec_float) : Prop :=
  SFleb (S754_zero false) x = true.

Definition magnitude (x : spec_float) : Z :=
  match x with
  | S754_finite _ m e => ulps m e
  | S754_infinity _ => 2 ^ 2100
  | _ => 0
  end.

(** The nearest magnitude to the dyadic number [m * 2^e]. *)
Definition nearest_dyadic (m e : Z) : Z :=
  if 0 <=? e + 1074
  then nearest_ulps (m * 2 ^ (e + 1074)) 1
  else nearest_ulps m (2 ^ (- (e + 1074))).

(** [round(_, 2)] on magnitudes. *)
Definition round2_ulps (n : Z) : Z :=
  nearest_ulps (round_half_even (100 * n) (2 ^ 1074) * 2 ^ 1074) 100.

End Binary64.

(** ** What the calculator is compared with

    The definitions the statements are written with: the line item of one
    code, the fields of an item, the sum as the loop accumulates it, the
    pattern of the two resolvers, matched codes, and a package with its
    promotion flag changed. *)

Section Model.
Context {F : Type} `{PyFloat F}.

(** The line item appended for a code found among the services. *)
Definition service_item (code : string) (s : Service.t F) : dict F :=
  list_to_map [("code", VStr code); ("name", VStr (Service.name s));
               ("price", VFloat (Service.price_single s))]%string.

(** The line item appended for a code found among the packages. *)
Definition package_item (code : string) (p : Package.t F) : dict F :=
  list_to_map [("code", VStr code); ("name", VStr (Package.title p));
               ("price", VFloat (Package.price_single p));
               ("package", VBool true)]%string.

(** The line item of one selected code, if any: the services are asked
    first, then the packages in catalog order. *)
Definition line_item (services : gmap string (Service.t F))
    (packages : list (Package.t F)) (code : string) : option (dict F) :=
  match services !! code with
  | Some s => Some (service_item code s)
  | None => package_item code <$> next_package packages code
  end.

(** The value under ["price"] of a line item, and under ["code"]. *)
Definition item_price (it : dict F) : option F :=
  match it !! "price"%string with
  | Some (VFloat x) => Some x
  | _ => None
  end.

Definition item_code (it : dict F) : option string :=
  match it !! "code"%string with
  | Some (VStr c) => Some c
  | _ => None
  end.

(** Prices added one after the other, left to right, from [0.0]. *)
Definition float_sum (acc : F) (l : list F) : F := foldl float_add acc l.

(** The items the request resolves to in the environment [w], and the
    running sum the loop leaves in [subtotal]. *)
Definition resolved_items (w : Env F) (codes : list string) : list (dict F) :=
  omap (line_item (services_by_code (list_services w)) (list_packages w)) codes.

Definition raw_subtotal (w : Env F) (codes : list string) : F :=
  float_sum (float_of_int 0) (omap item_price (resolved_items w codes)).

(** The pattern both resolvers follow: read, build every entry from the
    projected document, and give [default] when there is nothing stored,
    when the read raised, or when a constructor raised. *)
Definition resolve {A : Type} (read : exc (list (dict F)))
    (init : dict F → exc A) (fields : list string) (default : list A) : list A :=
  match read with
  | Ok docs =>
      if bool_decide (docs ≠ [])
      then match mapM (λ d, init (project fields d)) docs with
           | Ok r => r
           | Raise _ => default
           end
      else default
  | Raise _ => default
  end.

(** A selected code is matched when a service or a package of the
    catalog the resolver returns has it. *)
Definition matches (w : Env F) (c : string) : Prop :=
  Exists (λ s, Service.code s = c) (list_services w) ∨
  Exists (λ p, Package.code p = c) (list_packages w).

#[export] Instance matches_dec w c : Decision (matches w c).
Proof. unfold matches. apply _. Defined.

(** The package with its [promo_6_plus_2] flag set to [b]. *)
Definition with_promo (b : bool) (p : Package.t F) : Package.t F :=
  Package.mk (Package.title p) (Package.description p) (Package.code p)
    (Package.included_codes p) (Package.price_single p) b.

End Model.

(** ** Order laws of the arithmetic

    What the bounds on [subtotal] and [total] rest on, stated for numbers
    that are at least zero (so that a nan, which compares with nothing, is
    left out): comparison is reflexive and transitive; a sum of two such
    numbers is at least zero; multiplying one by 0.75 gives a number
    between zero and it; [round(_, 2)] is monotone, keeps zero at least
    zero, and rounding an already rounded number does not raise it.
    [Binary64Laws] proves them for the Python float, [ExactLaws] for
    rational numbers. *)
Class PyFloatOrder (F : Type) `{PyFloat F} : Prop := {
  float_le_zero :
    float_le (float_of_int 0) (float_of_int 0);
  float_le_refl x :
    float_le (float_of_int 0) x → float_le x x;
  float_le_trans x y z :
    float_le (float_of_int 0) x → float_le x y → float_le y z → float_le x z;
  float_add_nonneg x y :
    float_le (float_of_int 0) x → float_le (float_of_int 0) y →
    float_le (float_of_int 0) (float_add x y);
  float_mul_0_75_nonneg x :
    float_le (float_of_int 0) x →
    float_le (float_of_int 0) (float_mul x float_lit_0_75);
  float_mul_0_75_le x :
    float_le (float_of_int 0) x → float_le (float_mul x float_lit_0_75) x;
  float_round2_mono x y :
    float_le (float_of_int 0) x → float_le x y →
    float_le (float_round2 x) (float_round2 y);
  float_round2_zero :
    float_le (float_of_int 0) (float_round2 (float_of_int 0));
  float_round2_twice x :
    float_le (float_of_int 0) x →
    float_le (float_round2 (float_round2 x)) (float_round2 x)
}.

(** ** Exact rational arithmetic *)

Module Exact.

(** [round(x, 2)] on a rational: the nearest multiple of 1/100, ties to
    the even one. *)
Definition round2 (x : Q) : Q :=
  Binary64.round_half_even (Qnum x * 100) (Zpos (Qden x)) # 100.

#[global] Instance py_float : PyFloat Q := {|
  float_of_int := inject_Z;
  float_add := Qplus;
  float_mul := Qmult;
  float_lit_0_75 := 3 # 4;
  float_round2 := round2;
  float_le := Qle_bool
|}.

End Exact.

(** ** Concrete stores *)

(** A store with no documents, and a store that cannot be reached. *)
Definition store_empty {F : Type} : string → exc (list (dict F)) :=
  λ _, Ok [].

Definition store_down {F : Type} : string → exc (list (dict F)) :=
  λ _, Raise (PersistenceError "unreachable").

(** A store with one service priced 0.046, carrying the store's own
    identifier field, and no package. *)
Definition store_sub_cent : string → exc (list (dict float)) :=
  λ collection,
    if String.eqb collection "service"
    then Ok [list_to_map [("_id", VStr "65f0c1"); ("name", VStr "Zone X");
                          ("category", VStr "Test"); ("code", VStr "X");
                          ("price_single", VFloat 0.046%float);
                          ("duration_min", VInt 10)]%string]
    else Ok [].

(** A store with two services priced in whole cents, 10.05 and 10.65. *)
Definition store_cents : string → exc (list (dict float)) :=
  λ collection,
    if String.eqb collection "service"
    then Ok [list_to_map [("name", VStr "Zone A"); ("category", VStr "Test");
                          ("code", VStr "A"); ("price_single", VFloat 10.05%float);
                          ("duration_min", VInt 10)];
             list_to_map [("name", VStr "Zone B"); ("category", VStr "Test");
                          ("code", VStr "B"); ("price_single", VFloat 10.65%float);
                          ("duration_min", VInt 10)]]%string
    else Ok [].

(** A store with one package that is not in the promotion. *)
Definition store_no_promo : string → exc (list (dict float)) :=
  λ collection,
    if String.eqb collection "package"
    then Ok [list_to_map [("title", VStr "Arms only"); ("code", VStr "ARMS");
                          ("included_codes", VList [VStr "ARM-HELE"]);
                          ("price_single", VInt 100);
                          ("promo_6_plus_2", VBool false)]%string]
    else Ok [].

(** The same package stored without the flag. *)
Definition store_default_promo : string → exc (list (dict float)) :=
  λ collection,
    if String.eqb collection "package"
    then Ok [list_to_map [("title", VStr "Arms only"); ("code", VStr "ARMS");
                          ("included_codes", VList [VStr "ARM-HELE"]);
                          ("price_single", VInt 100)]%string]
    else Ok [].

(** ** The other endpoints of [main.py]

    [list_faqs] follows the pattern of the two catalog resolvers, with the
    schema [FAQ]; [test_database] reports on the database handle and on two
    environment variables. *)

(** *** The schema [FAQ] ([schemas.py], lines 63-65) *)

Module FAQ.
Record t : Type := mk {
  question : string;
  answer : string
}.

(** [FAQ.model_fields] *)
Definition model_fields : list string := ["question"; "answer"]%string.
End FAQ.

(** *** Python strings

    A [str] is a sequence of code points; here it is held as its UTF-8
    bytes, a code point being one byte that is not a continuation byte
    (10xxxxxx) followed by its continuation bytes. *)

Definition is_continuation (a : Ascii.ascii) : bool :=
  match a with
  | Ascii.Ascii _ _ _ _ _ _ false true => true
  | _ => false
  end.

(** [len(s)] *)
Fixpoint py_len (s : string) : nat :=
  match s with
  | EmptyString => 0
  | String a s => if is_continuation a then py_len s else S (py_len s)
  end.

(** [s[:n]] *)
Fixpoint py_take (n : nat) (s : string) : string :=
  match s with
  | EmptyString => EmptyString
  | String a s' =>
      if is_continuation a then String a (py_take n s')
      else match n with
           | O => EmptyString
           | S n' => String a (py_take n' s')
           end
  end.

(** The truth value of what [os.getenv] returns: [None] and the empty
    string are false. *)
Definition truthy (v : option string) : bool :=
  match v with
  | Some s => bool_decide (s ≠ EmptyString)
  | None => false
  end.

(** *** Collaborators of the other endpoints

    [db] is [None] or a database handle, whose [list_collection_names()]
    returns the names or raises; [getenv] is [os.getenv]; [str] gives the
    message of an exception; [FAQ_init] is the constructor [FAQ] applied to
    keyword arguments. *)

Module Database.
Record t : Type := mk {
  list_collection_names : exc (list string)
}.
End Database.

Record Site (F : Type) : Type := mkSite {
  env : Env F;
  FAQ_init : dict F → exc FAQ.t;
  db : option Database.t;
  getenv : string → option string;
  str : exn → string
}.
Arguments mkSite {F}.
Arguments env {F}.
Arguments FAQ_init {F}.
Arguments db {F}.
Arguments getenv {F}.
Arguments str {F}.

(** *** Statements on a local dictionary

    A block of statements that assigns to keys of a local dictionary and
    may raise: it leaves the dictionary as it was when the exception
    left the block, which is how the handler finds it. *)

Definition stmt (S A : Type) : Type := S → exc A * S.

#[export] Instance stmt_ret {S : Type} : MRet (stmt S) := λ A a r, (Ok a, r).
#[export] Instance stmt_bind {S : Type} : MBind (stmt S) :=
  λ A B f m r,
    match m r with
    | (Ok a, r') => f a r'
    | (Raise e, r') => (Raise e, r')
    end.

(** [response[k] = v] *)
Definition setitem {F : Type} (k : string) (v : value F) : stmt (dict F) () :=
  λ r, (Ok (), <[k := v]> r).

(** A call that does not touch the dictionary. *)
Definition call {S A : Type} (m : exc A) : stmt S A := λ r, (m, r).

(** [try: body / except Exception as e: handler] *)
Definition try_except {S A : Type} (body : stmt S A) (handler : exn → stmt S A)
  : stmt S A :=
  λ r,
    match body r with
    | (Ok a, r') => (Ok a, r')
    | (Raise e, r') => handler e r'
    end.

Section Endpoints.
Context {F : Type} `{PyFloat F}.

(** *** [list_faqs] ([main.py], lines 169-183) *)

(** The keyword arguments of the four default entries. *)
Definition DEFAULT_FAQ_KWARGS : list (dict F) := [
  list_to_map
    [("question", VStr "Doet laserontharing pijn?");
     ("answer", VStr "De meeste klanten ervaren slechts milde prikkels. Met koeling is het goed te doen.")];
  list_to_map
    [("question", VStr "Hoeveel behandelingen heb ik nodig?");
     ("answer", VStr "Gemiddeld 6-8 sessies voor optimaal resultaat; daarom onze 6 + 2 deal.")];
  list_to_map
    [("question", VStr "Voor wie is het geschikt?");
     ("answer", VStr "De nieuwste technologie werkt voor de meeste huid- en haartypen. Tijdens de intake adviseren we persoonlijk.")];
  list_to_map
    [("question", VStr "Voorzorg / nazorg?");
     ("answer", VStr "Vermijd zonnen 48 uur voor en na. Gebruik SPF en volg ons nazorgadvies.")]
]%string.

(** The [try] returns the list built from the stored documents, falls
    through, or raises and is passed; the default entries are then
    constructed, one after the other, outside the [try]. *)
Definition list_faqs (w : Site F) : exc (list FAQ.t) :=
  match
    docs ← get_documents (env w) "faq";
    if bool_decide (docs ≠ [])
    then r ← mapM (λ d, FAQ_init w (project FAQ.model_fields d)) docs;
         mret (Some r)
    else mret None
  with
  | Ok (Some r) => Ok r
  | Ok None | Raise _ => mapM (FAQ_init w) DEFAULT_FAQ_KWARGS
  end.

(** The four default entries as the constructor builds them from
    their two strings. *)
Definition DEFAULT_FAQS : list FAQ.t := [
  FAQ.mk "Doet laserontharing pijn?"
    "De meeste klanten ervaren slechts milde prikkels. Met koeling is het goed te doen.";
  FAQ.mk "Hoeveel behandelingen heb ik nodig?"
    "Gemiddeld 6-8 sessies voor optimaal resultaat; daarom onze 6 + 2 deal.";
  FAQ.mk "Voor wie is het geschikt?"
    "De nieuwste technologie werkt voor de meeste huid- en haartypen. Tijdens de intake adviseren we persoonlijk.";
  FAQ.mk "Voorzorg / nazorg?"
    "Vermijd zonnen 48 uur voor en na. Gebruik SPF en volg ons nazorgadvies."
]%string.

(** The two [str] fields as a validator: the constructor the concrete
    evaluations run with. *)
Definition FAQ_validate (kw : dict F) : exc FAQ.t :=
  question ← field_str kw "question";
  answer ← field_str kw "answer";
  mret (FAQ.mk question answer).

(** *** What the calculator reads of a catalog entry *)

Definition service_view (s : Service.t F) : string * string * F :=
  (Service.code s, Service.name s, Service.price_single s).

Definition package_view (p : Package.t F) : string * string * F :=
  (Package.code p, Package.title p, Package.price_single p).

(** The bounds the schema declares for a service and for a package
    ([schemas.py], lines 24-26 and 33). *)
Definition service_within_bounds (s : Service.t F) : Prop :=
  float_le (float_of_int 0) (Service.price_single s) ∧
  (∀ x, Service.price_package_6x s = Some x → float_le (float_of_int 0) x) ∧
  5 ≤ Service.duration_min s.

Definition package_within_bounds (p : Package.t F) : Prop :=
  float_le (float_of_int 0) (Package.price_single p).

(** *** [test_database] ([main.py], lines 23-46) *)

Definition test_database (w : Site F) : exc (dict F) :=
  let response : dict F := list_to_map [
    ("backend", VStr "✅ Running");
    ("database", VStr "❌ Not Available");
    ("database_url",
       VStr (if truthy (getenv w "DATABASE_URL") then "✅ Set" else "❌ Not Set"));
    ("database_name",
       VStr (if truthy (getenv w "DATABASE_NAME") then "✅ Set" else "❌ Not Set"));
    ("connection_status", VStr "Not Connected");
    ("collections", VList [])
  ]%string in
  let '(outcome, response) :=
    try_except
      (match db w with
       | Some db =>
           setitem "database" (VStr "✅ Connected");;
           setitem "connection_status" (VStr "Connected");;
           try_except
             (names ← call (Database.list_collection_names db);
              setitem "collections" (VList (VStr <$> names));;
              setitem "database" (VStr "✅ Connected & Working"))
             (λ e, setitem "database"
                     (VStr ("⚠️ Connected but error: " +:+ py_take 80 (str w e))))
       | None => setitem "database" (VStr "⚠️ Available but not initialized")
       end)
      (λ e, setitem "database" (VStr ("❌ Error: " +:+ py_take 80 (str w e))))
      response in
  _ ← outcome; mret response.

End Endpoints.

(** A store with three questions, the second without its answer, and a
    store with one complete question that carries the store's identifier. *)
Definition store_faq_incomplete : string → exc (list (dict float)) :=
  λ collection,
    if String.eqb collection "faq"
    then Ok [list_to_map [("question", VStr "Q1"); ("answer", VStr "A1")];
             list_to_map [("question", VStr "Q2")];
             list_to_map [("question", VStr "Q3"); ("answer", VStr "A3")]]%string
    else Ok [].

Definition store_faq_one : string → exc (list (dict float)) :=
  λ collection,
    if String.eqb collection "faq"
    then Ok [list_to_map [("_id", VStr "65f0c2"); ("question", VStr "Q1");
                          ("answer", VStr "A1")]]%string
    else Ok [].

(** A store with one valid service and one whose price is negative. *)
Definition store_one_invalid : string → exc (list (dict float)) :=
  λ collection,
    if String.eqb collection "service"
    then Ok [list_to_map [("name", VStr "Zone A"); ("category", VStr "Test");
                          ("code", VStr "A"); ("price_single", VFloat 10.05%float);
                          ("duration_min", VInt 10)];
             list_to_map [("name", VStr "Zone B"); ("category", VStr "Test");
                          ("code", VStr "B"); ("price_single", VFloat (-1)%float);
                          ("duration_min", VInt 10)]]%string
    else Ok [].

(** The two services of [store_cents] with other categories, durations
    and six-session prices. *)
Definition store_cents_other : string → exc (list (dict float)) :=
  λ collection,
    if String.eqb collection "service"
    then Ok [list_to_map [("name", VStr "Zone A"); ("category", VStr "Other");
                          ("code", VStr "A"); ("price_single", VFloat 10.05%float);
                          ("price_package_6x", VFloat 50%float);
                          ("duration_min", VInt 60)];
             list_to_map [("name", VStr "Zone B"); ("category", VStr "Other");
                          ("code", VStr "B"); ("price_single", VFloat 10.65%float);
                          ("duration_min", VInt 45)]]%string
    else Ok [].

(** [str(e)] for the concrete evaluations: the text the database module
    raised with, the key of a [KeyError] between quotes, a fixed text for
    a validation error. The theorems quantify over every [str]. *)
Definition exn_str (e : exn) : string :=
  match e with
  | KeyError k => "'" +:+ k +:+ "'"
  | ValidationError => "validation error"
  | PersistenceError msg => msg
  end.

(** A site over a store, with a database handle and environment variables. *)
Definition site (store : string → exc (list (dict float))) (db : option Database.t)
    (getenv : string → option string) : Site float :=
  mkSite (pydantic_env store) FAQ_validate db getenv exn_str.

(** The magnitude of the float packed from [n] ulps: [n] itself below
    2^1024, from there on that of an infinity. *)
Definition saturate (n : Z) : Z := if n <? 2 ^ 2098 then n else 2 ^ 2100.

(** * Lemmas and theorems *)

(** ** What the loop computes *)

Section Loop.
Context {F : Type} `{PyFloat F}.
Implicit Types (services : gmap string (Service.t F)) (packages : list (Package.t F)).
Implicit Types (it : dict F) (w : Env F) (s : Service.t F) (p : Package.t F).

Lemma item_price_service code (s : Service.t F) :
  item_price (service_item code s) = Some (Service.price_single s).
Proof. reflexivity. Qed.

Lemma item_price_package code (p : Package.t F) :
  item_price (package_item code p) = Some (Package.price_single p).
Proof. reflexivity. Qed.

Lemma item_code_service code (s : Service.t F) : item_code (service_item code s) = Some code.
Proof. reflexivity. Qed.

Lemma item_code_package code (p : Package.t F) : item_code (package_item code p) = Some code.
Proof. reflexivity. Qed.

Lemma line_item_price services packages code it :
  line_item services packages code = Some it → is_Some (item_price it).
Proof.
  unfold line_item. destruct (services !! code) as [s|].
  - intros [= <-]. rewrite item_price_service. eauto.
  - destruct (next_package packages code) as [p|]; simpl; [|discriminate].
    intros [= <-]. rewrite item_price_package. eauto.
Qed.

Lemma line_item_code services packages code it :
  line_item services packages code = Some it → item_code it = Some code.
Proof.
  unfold line_item. destruct (services !! code) as [s|].
  - intros [= <-]. apply item_code_service.
  - destruct (next_package packages code) as [p|]; simpl; [|discriminate].
    intros [= <-]. apply item_code_package.
Qed.

(** One turn of the loop never raises: it appends the line item of the
    code, if there is one, and adds its price. *)
Lemma loop_body_eq services packages items subtotal code :
  loop_body services packages (items, subtotal) code =
  Ok (match line_item services packages code with
      | Some it => (items ++ [it],
                    match item_price it with
                    | Some x => float_add subtotal x
                    | None => subtotal
                    end)
      | None => (items, subtotal)
      end).
Proof.
  unfold loop_body, line_item, getitem.
  destruct (services !! code) as [s|] eqn:Hs.
  - rewrite bool_decide_eq_true_2 by eauto. reflexivity.
  - rewrite bool_decide_eq_false_2 by (intros [? ?]; discriminate).
    destruct (next_package packages code) as [p|]; reflexivity.
Qed.

Lemma for_each_loop_body services packages codes items subtotal :
  for_each (loop_body services packages) codes (items, subtotal) =
  Ok (items ++ omap (line_item services packages) codes,
      float_sum subtotal (omap item_price (omap (line_item services packages) codes))).
Proof.
  revert items subtotal.
  induction codes as [|code codes IH]; intros items subtotal; cbn [for_each omap list_omap].
  - by rewrite app_nil_r.
  - rewrite loop_body_eq. cbn [mbind exc_bind].
    destruct (line_item services packages code) as [it|] eqn:Hit; simpl.
    + rewrite IH. destruct (line_item_price _ _ _ _ Hit) as [x Hx].
      rewrite Hx. simpl. by rewrite <- app_assoc.
    + apply IH.
Qed.

(** [calculate_price] in closed form. *)
Lemma calculate_price_eq w payload :
  calculate_price w payload =
  let codes := PriceCalcRequest.selected_codes payload in
  let s := raw_subtotal w codes in
  Ok (PriceCalcResponse.mk (resolved_items w codes) (float_round2 s)
        (if PriceCalcRequest.sessions payload =? 8
         then Some "6 + 2 gratis"%string else None)
        (float_round2 (if PriceCalcRequest.sessions payload =? 8
                       then float_round2 (float_mul s float_lit_0_75)
                       else s))).
Proof.
  unfold calculate_price. rewrite for_each_loop_body. simpl.
  unfold raw_subtotal, resolved_items.
  by destruct (PriceCalcRequest.sessions payload =? 8).
Qed.

End Loop.

(** Replaces a call of [calculate_price] by its result and projects the
    fields of the response. *)
Ltac calc_returns :=
  rewrite calculate_price_eq; eexists; split; [reflexivity|];
  cbn [PriceCalcResponse.items PriceCalcResponse.subtotal
       PriceCalcResponse.promo_label PriceCalcResponse.total
       PriceCalcRequest.selected_codes PriceCalcRequest.sessions].

(** ** The catalog as the loop sees it *)

Section Catalog.
Context {F : Type}.
Implicit Types (l : list (Service.t F)) (packages : list (Package.t F)).

Lemma services_by_code_snoc l s :
  services_by_code (l ++ [s]) = <[Service.code s := s]> (services_by_code l).
Proof. unfold services_by_code. by rewrite foldl_app. Qed.

(** An entry of the map is an entry of the list, filed under its code. *)
Lemma services_by_code_Some l c s :
  services_by_code l !! c = Some s → s ∈ l ∧ Service.code s = c.
Proof.
  induction l as [|s' l IH] using rev_ind; [done|].
  rewrite services_by_code_snoc, lookup_insert.
  case_decide as Hc.
  - intros [= ->]. split; [|done]. apply elem_of_app. right. by left.
  - intros [Hin ?]%IH. split; [|done]. apply elem_of_app. by left.
Qed.

(** No entry under [c] exactly when no service has code [c]. *)
Lemma services_by_code_None l c :
  services_by_code l !! c = None ↔ Forall (λ s, Service.code s ≠ c) l.
Proof.
  induction l as [|s' l IH] using rev_ind; [by split; [constructor|]|].
  rewrite services_by_code_snoc, lookup_insert, Forall_app, Forall_singleton.
  case_decide as Hc.
  - split; [discriminate | by intros [_ ?]].
  - rewrite IH. tauto.
Qed.

Lemma services_by_code_is_Some l c :
  is_Some (services_by_code l !! c) ↔ ∃ s, s ∈ l ∧ Service.code s = c.
Proof.
  split.
  - intros [s Hs]. exists s. by apply services_by_code_Some.
  - intros (s & Hin & Hs).
    destruct (services_by_code l !! c) eqn:Hl; [eauto|].
    apply services_by_code_None in Hl.
    by destruct (proj1 (Forall_forall _ _) Hl s Hin).
Qed.

(** The entry under a code is the last service of the list that has it. *)
Lemma services_by_code_last (pre : list (Service.t F)) s post :
  Forall (λ s', Service.code s' ≠ Service.code s) post →
  services_by_code (pre ++ s :: post) !! Service.code s = Some s.
Proof.
  induction post as [|s' post IH] using rev_ind; intros Hpost.
  - by rewrite services_by_code_snoc, lookup_insert_eq.
  - apply Forall_app in Hpost as [Hpost Hs']. rewrite Forall_singleton in Hs'.
    replace (pre ++ s :: post ++ [s']) with ((pre ++ s :: post) ++ [s'])
      by (by rewrite <- app_assoc).
    rewrite services_by_code_snoc, lookup_insert_ne by done.
    by apply IH.
Qed.

(** [next_package] returns the first package of the list with the code. *)
Lemma next_package_first packages (pre : list (Package.t F)) p post :
  packages = pre ++ p :: post →
  Forall (λ q, Package.code q ≠ Package.code p) pre →
  next_package packages (Package.code p) = Some p.
Proof.
  intros -> Hpre. unfold next_package.
  induction Hpre as [|q pre Hq _ IH]; simpl.
  - by rewrite String.eqb_refl.
  - by apply String.eqb_neq in Hq as ->.
Qed.

Lemma next_package_Some packages c p :
  next_package packages c = Some p →
  ∃ pre post, packages = pre ++ p :: post ∧ Package.code p = c ∧
              Forall (λ q, Package.code q ≠ c) pre.
Proof.
  unfold next_package. induction packages as [|q packages IH]; simpl; [done|].
  destruct (String.eqb_spec (Package.code q) c) as [Hq|Hq].
  - intros [= ->]. by exists [], packages.
  - intros (pre & post & -> & ? & ?)%IH.
    exists (q :: pre), post. by repeat split; [|constructor].
Qed.

Lemma next_package_None packages c :
  next_package packages c = None ↔ Forall (λ q, Package.code q ≠ c) packages.
Proof.
  unfold next_package. induction packages as [|q packages IH]; simpl.
  - by split; [constructor|].
  - rewrite Forall_cons.
    destruct (String.eqb_spec (Package.code q) c) as [Hq|Hq].
    + split; [discriminate | by intros [? _]].
    + rewrite IH. tauto.
Qed.

End Catalog.

(** ** The resolver *)

Section Resolver.
Context {F : Type} `{PyFloat F}.
Implicit Types (services : gmap string (Service.t F)) (packages : list (Package.t F)).
Implicit Types (it : dict F) (w : Env F) (s : Service.t F) (p : Package.t F).

Lemma list_services_resolve (w : Env F) :
  list_services w =
  resolve (get_documents w "service") (Service_init w) Service.model_fields
    DEFAULT_SERVICES.
Proof.
  unfold list_services, resolve.
  destruct (get_documents w "service") as [docs|e]; simpl; [|done].
  case_bool_decide; simpl; [|done].
  by destruct (mapM _ docs).
Qed.

Lemma list_packages_resolve (w : Env F) :
  list_packages w =
  resolve (get_documents w "package") (Package_init w) Package.model_fields
    DEFAULT_PACKAGES.
Proof.
  unfold list_packages, resolve.
  destruct (get_documents w "package") as [docs|e]; simpl; [|done].
  case_bool_decide; simpl; [|done].
  by destruct (mapM _ docs).
Qed.

(** [mapM] in [exc] succeeds exactly when every call does. *)
Lemma mapM_exc_Ok {A B : Type} (f : A → exc B) (l : list A) (r : list B) :
  mapM f l = Ok r ↔ Forall2 (λ x y, f x = Ok y) l r.
Proof.
  revert r. induction l as [|x l IH]; intros r; simpl.
  - split; [intros [= <-]; constructor | by inversion 1].
  - split.
    + destruct (f x) as [y|e] eqn:Hx; simpl; [|done].
      destruct (mapM f l) as [k|e] eqn:Hl; simpl; [|done].
      intros [= <-]. constructor; [done|]. by apply IH.
    + inversion 1 as [|? y ? k Hy Hk]; subst.
      apply IH in Hk. by rewrite Hy, Hk.
Qed.

Lemma resolve_read_raises {A : Type} e (init : dict F → exc A) fields default :
  resolve (Raise e) init fields default = default.
Proof. reflexivity. Qed.

Lemma resolve_read_empty {A : Type} (init : dict F → exc A) fields default :
  resolve (Ok []) init fields default = default.
Proof. reflexivity. Qed.

(** All or nothing: the result is the default list, or it is built, entry
    by entry, from the stored documents. *)
Lemma resolve_all_or_nothing {A : Type} read (init : dict F → exc A) fields default :
  resolve read init fields default = default ∨
  ∃ docs, read = Ok docs ∧ docs ≠ [] ∧
    Forall2 (λ d x, init (project fields d) = Ok x) docs
      (resolve read init fields default).
Proof.
  unfold resolve. destruct read as [docs|e]; [|by left].
  case_bool_decide as Hdocs; [|by left].
  destruct (mapM _ docs) as [r|e] eqn:Hr; [|by left].
  right. exists docs. by apply mapM_exc_Ok in Hr.
Qed.

Lemma resolve_stored {A : Type} docs (init : dict F → exc A) fields default r :
  docs ≠ [] →
  Forall2 (λ d x, init (project fields d) = Ok x) docs r →
  resolve (Ok docs) init fields default = r.
Proof.
  intros Hdocs Hr%mapM_exc_Ok. unfold resolve.
  by rewrite bool_decide_eq_true_2, Hr.
Qed.

(** *** The projection *)

Lemma project_lookup_declared fields (d : dict F) k :
  k ∈ fields → project fields d !! k = d !! k.
Proof.
  intros Hk. unfold project. rewrite map_lookup_filter.
  destruct (d !! k) as [v|]; simpl; [|done].
  by rewrite option_guard_True.
Qed.

Lemma project_lookup_undeclared fields (d : dict F) k :
  k ∉ fields → project fields d !! k = None.
Proof.
  intros Hk. unfold project. rewrite map_lookup_filter.
  destruct (d !! k) as [v|]; simpl; [|done].
  by rewrite option_guard_False.
Qed.

(** Two documents with the same declared fields have the same projection. *)
Lemma project_agree fields (d1 d2 : dict F) :
  (∀ k, k ∈ fields → d1 !! k = d2 !! k) →
  project fields d1 = project fields d2.
Proof.
  intros Hd. apply map_eq. intros k.
  destruct (decide (k ∈ fields)) as [Hk|Hk].
  - rewrite !project_lookup_declared by done. by apply Hd.
  - by rewrite !project_lookup_undeclared.
Qed.

Lemma resolve_agree {A : Type} docs1 docs2 (init : dict F → exc A) fields default :
  Forall2 (λ d1 d2, ∀ k, k ∈ fields → d1 !! k = d2 !! k) docs1 docs2 →
  resolve (Ok docs1) init fields default = resolve (Ok docs2) init fields default.
Proof.
  intros Hd. unfold resolve.
  assert (map (project fields) docs1 = map (project fields) docs2) as Hmap.
  { induction Hd as [|d1 d2 l1 l2 Hd _ IH]; simpl; [done|].
    by rewrite (project_agree _ _ _ Hd), IH. }
  assert (∀ l : list (dict F),
    mapM (λ d, init (project fields d)) l = mapM init (map (project fields) l)) as Hm.
  { induction l as [|d l IH]; simpl; [done|]. by rewrite IH. }
  rewrite !Hm, Hmap.
  by destruct Hd.
Qed.

End Resolver.

(** ** IEEE binary64: the order laws

    Addition and multiplication are the primitive operations of the
    kernel; their specification [SFadd], [SFmul] rounds with
    [binary_round_aux]. That function is shown to return the double
    nearest to the exact result ([binary_round_aux_exact]); the laws
    follow from the monotonicity of the nearest double. *)

Module Binary64Laws.
Import Binary64.

(** ** Rounding a quotient to the nearest integer *)

Lemma round_half_even_spec a d :
  0 < d →
  d * (2 * round_half_even a d - 1) ≤ 2 * a ∧
  2 * a ≤ d * (2 * round_half_even a d + 1).
Proof.
  intros Hd. unfold round_half_even.
  pose proof (Z.div_mod a d ltac:(lia)) as Ha.
  pose proof (Z.mod_pos_bound a d Hd) as Hr.
  set (q := a / d) in *. set (r := a mod d) in *.
  destruct (Z.compare_spec (2 * r) d); try destruct (Z.even q); nia.
Qed.

Lemma round_half_even_unique a d m :
  0 < d → 2 * Z.abs (a - m * d) < d → round_half_even a d = m.
Proof.
  intros Hd Hm. destruct (round_half_even_spec a d Hd) as [H1 H2].
  set (r := round_half_even a d) in *. nia.
Qed.

Lemma round_half_even_mono (a b c d : Z) :
  0 < b → 0 < d → a * d ≤ c * b →
  round_half_even a b ≤ round_half_even c d.
Proof.
  intros Hb Hd Hle. unfold round_half_even.
  pose proof (Z.div_mod a b ltac:(lia)) as Ha.
  pose proof (Z.mod_pos_bound a b Hb) as Hra.
  pose proof (Z.div_mod c d ltac:(lia)) as Hc.
  pose proof (Z.mod_pos_bound c d Hd) as Hrc.
  set (qa := a / b) in *. set (ra := a mod b) in *.
  set (qc := c / d) in *. set (rc := c mod d) in *.
  assert (qa ≤ qc) as Hq.
  { destruct (Z_le_gt_dec qa qc) as [|Hgt]; [done|]. exfalso.
    assert (b * d * (qc + 1) ≤ b * d * qa)
      by (apply Z.mul_le_mono_nonneg_l; nia).
    assert (rc * b < d * b) by (apply Z.mul_lt_mono_pos_r; lia).
    assert (0 ≤ ra * d) by nia.
    nia. }
  destruct (Z.eq_dec qa qc) as [Heq|Hne].
  - assert (ra * d ≤ rc * b) as Hr by nia.
    rewrite <- Heq.
    destruct (Z.compare_spec (2 * ra) b) as [Ea|La|Ga];
      destruct (Z.compare_spec (2 * rc) d) as [Ec|Lc|Gc];
      try destruct (Z.even qa); try lia; nia.
  - assert (qa + 1 ≤ qc) by lia.
    destruct (2 * ra ?= b); destruct (2 * rc ?= d);
      try destruct (Z.even qa); try destruct (Z.even qc); lia.
Qed.

Lemma round_half_even_multiple (k d : Z) :
  0 < d → round_half_even (k * d) d = k.
Proof.
  intros Hd. unfold round_half_even.
  rewrite Z.div_mul, Z.mod_mul by lia.
  by destruct (Z.compare_spec (2 * 0) d); try lia.
Qed.

Lemma round_half_even_ratio (a b c d : Z) :
  0 < b → 0 < d → a * d = c * b →
  round_half_even a b = round_half_even c d.
Proof.
  intros Hb Hd Heq. apply Z.le_antisymm; apply round_half_even_mono; lia.
Qed.

Lemma round_half_even_ge a d m :
  0 < d → m * d ≤ a → m ≤ round_half_even a d.
Proof.
  intros Hd Hm. rewrite <- (round_half_even_multiple m d Hd).
  apply round_half_even_mono; [done..|]. by apply Z.mul_le_mono_nonneg_r; [lia|].
Qed.

Lemma round_half_even_le a d m :
  0 < d → a ≤ m * d → round_half_even a d ≤ m.
Proof.
  intros Hd Hm. rewrite <- (round_half_even_multiple m d Hd).
  apply round_half_even_mono; [done..|]. by apply Z.mul_le_mono_nonneg_r; [lia|].
Qed.

(** ** Bounds from the integer logarithm *)

Lemma log2_lt_succ n : 0 ≤ n → n < 2 ^ (Z.log2 n + 1).
Proof.
  intros Hn. destruct (Z.eq_dec n 0) as [->|Hne]; [done|].
  pose proof (Z.log2_spec n ltac:(lia)) as [_ H]. by rewrite <- Z.add_1_r in H.
Qed.

Lemma div_le_cross a1 d1 a2 d2 :
  0 ≤ a1 → 0 < d1 → 0 < d2 → a1 * d2 ≤ a2 * d1 → a1 / d1 ≤ a2 / d2.
Proof.
  intros Ha1 Hd1 Hd2 Hle. apply Z.div_le_lower_bound; [done|].
  pose proof (Z.mul_div_le a1 d1 Hd1). nia.
Qed.

(** ** The nearest double *)

Lemma nearest_ulps_mono a1 d1 a2 d2 :
  0 ≤ a1 → 0 < d1 → 0 < d2 → a1 * d2 ≤ a2 * d1 →
  nearest_ulps a1 d1 ≤ nearest_ulps a2 d2.
Proof.
  intros Ha1 Hd1 Hd2 Hle.
  assert (0 ≤ a2) as Ha2 by nia.
  pose proof (div_le_cross _ _ _ _ Ha1 Hd1 Hd2 Hle) as Hq.
  assert (0 ≤ a1 / d1) as Hq1 by (apply Z.div_pos; lia).
  pose proof (Z.log2_le_mono _ _ Hq) as HL.
  unfold nearest_ulps.
  set (L1 := Z.log2 (a1 / d1)) in *. set (L2 := Z.log2 (a2 / d2)) in *.
  set (j1 := Z.max 0 (L1 - 52)). set (j2 := Z.max 0 (L2 - 52)).
  assert (0 ≤ j1 ≤ j2) as Hj by lia.
  assert (0 < 2 ^ j1) by (apply Z.pow_pos_nonneg; lia).
  assert (0 < 2 ^ j2) by (apply Z.pow_pos_nonneg; lia).
  destruct (Z.eq_dec j1 j2) as [Heq|Hne].
  - rewrite <- Heq. apply Z.mul_le_mono_nonneg_r; [lia|].
    apply round_half_even_mono; nia.
  - assert (j2 = L2 - 52 ∧ 0 < L2) as [Hj2 HL2] by lia.
    assert (0 < a2 / d2) as Hq2.
    { destruct (Z.le_gt_cases (a2 / d2) 0) as [Hn|]; [|done].
      pose proof (Z.log2_nonpos _ Hn) as Hz. fold L2 in Hz. lia. }
    pose proof (Z.log2_spec _ Hq2) as [Hlow _]. fold L2 in Hlow.
    pose proof (Z.mul_div_le a2 d2 Hd2) as Hfl2.
    assert (2 ^ 52 * (d2 * 2 ^ j2) ≤ a2) as Hbig.
    { replace L2 with (52 + j2) in Hlow by lia.
      rewrite Z.pow_add_r in Hlow by lia.
      assert (d2 * (2 ^ 52 * 2 ^ j2) ≤ d2 * (a2 / d2))
        by (apply Z.mul_le_mono_nonneg_l; lia).
      replace (2 ^ 52 * (d2 * 2 ^ j2)) with (d2 * (2 ^ 52 * 2 ^ j2)) by ring.
      lia. }
    pose proof (round_half_even_ge a2 (d2 * 2 ^ j2) (2 ^ 52) ltac:(nia) Hbig) as Hr2.
    pose proof (log2_lt_succ _ Hq1) as Hup. fold L1 in Hup.
    assert (a1 < d1 * (a1 / d1 + 1)) as Hfl1.
    { pose proof (Z.mod_pos_bound a1 d1 Hd1). pose proof (Z.div_mod a1 d1 ltac:(lia)). nia. }
    assert (2 ^ (L1 + 1) ≤ 2 ^ (j1 + 53)) as Hp by (apply Z.pow_le_mono_r; lia).
    assert (a1 ≤ 2 ^ 53 * (d1 * 2 ^ j1)) as Hsmall.
    { rewrite (Z.pow_add_r 2 j1 53) in Hp by lia.
      assert (d1 * (a1 / d1 + 1) ≤ d1 * 2 ^ (L1 + 1))
        by (apply Z.mul_le_mono_nonneg_l; lia).
      assert (d1 * 2 ^ (L1 + 1) ≤ d1 * (2 ^ j1 * 2 ^ 53))
        by (apply Z.mul_le_mono_nonneg_l; lia).
      replace (2 ^ 53 * (d1 * 2 ^ j1)) with (d1 * (2 ^ j1 * 2 ^ 53)) by ring.
      lia. }
    pose proof (round_half_even_le a1 (d1 * 2 ^ j1) (2 ^ 53) ltac:(nia) Hsmall) as Hr1.
    assert (2 ^ (j1 + 1) ≤ 2 ^ j2) as Hpj by (apply Z.pow_le_mono_r; lia).
    rewrite Z.pow_add_r in Hpj by lia.
    assert (0 ≤ round_half_even a1 (d1 * 2 ^ j1)).
    { apply (round_half_even_ge a1 _ 0); nia. }
    change (2 ^ 53) with (2 * 2 ^ 52) in Hr1.
    set (r1 := round_half_even a1 (d1 * 2 ^ j1)) in *.
    set (r2 := round_half_even a2 (d2 * 2 ^ j2)) in *.
    assert (r1 * 2 ^ j1 ≤ (2 * 2 ^ 52) * 2 ^ j1)
      by (apply Z.mul_le_mono_nonneg_r; lia).
    assert (2 ^ 52 * (2 ^ j1 * 2) ≤ 2 ^ 52 * 2 ^ j2)
      by (apply Z.mul_le_mono_nonneg_l; lia).
    assert (2 ^ 52 * 2 ^ j2 ≤ r2 * 2 ^ j2)
      by (apply Z.mul_le_mono_nonneg_r; lia).
    lia.
Qed.

Lemma nearest_ulps_ratio a1 d1 a2 d2 :
  0 ≤ a1 → 0 < d1 → 0 < d2 → a1 * d2 = a2 * d1 →
  nearest_ulps a1 d1 = nearest_ulps a2 d2.
Proof.
  intros Ha1 Hd1 Hd2 Heq.
  assert (0 ≤ a2) by nia.
  apply Z.le_antisymm; apply nearest_ulps_mono; lia.
Qed.

Lemma digits2_pos_size m : digits2_pos m = Pos.size m.
Proof. induction m as [m IH|m IH|]; simpl; by rewrite ?IH. Qed.

Lemma digits2_pos_log2 m : Zpos (digits2_pos m) = Z.log2 (Zpos m) + 1.
Proof.
  rewrite digits2_pos_size. destruct m as [m|m|]; simpl; [| |done];
    rewrite Pos2Z.inj_succ; lia.
Qed.

Lemma representable_log2 n r j :
  n = r * 2 ^ j → 0 ≤ j → 0 < r < 2 ^ 53 → (0 < j → 2 ^ 52 ≤ r) →
  Z.max 0 (Z.log2 n - 52) = j ∧ n / 2 ^ j = r.
Proof.
  intros -> Hj Hr Hnorm.
  assert (0 < 2 ^ j) by (apply Z.pow_pos_nonneg; lia).
  split; [|by apply Z.div_mul; lia].
  rewrite Z.log2_mul_pow2 by lia.
  assert (Z.log2 r < 53) by (apply Z.log2_lt_pow2; lia).
  destruct (Z.eq_dec j 0) as [->|Hne]; [lia|].
  assert (52 ≤ Z.log2 r) by (apply Z.log2_le_pow2; lia).
  lia.
Qed.

Lemma nearest_ulps_shape a d :
  0 ≤ a → 0 < d →
  ∃ r j, nearest_ulps a d = r * 2 ^ j ∧ 0 ≤ j ∧ 0 ≤ r ≤ 2 ^ 53 ∧
         (0 < j → 2 ^ 52 ≤ r) ∧ j = Z.max 0 (Z.log2 (a / d) - 52).
Proof.
  intros Ha Hd. unfold nearest_ulps.
  set (L := Z.log2 (a / d)). set (j := Z.max 0 (L - 52)).
  assert (0 ≤ j) as Hj by lia.
  assert (0 < 2 ^ j) by (apply Z.pow_pos_nonneg; lia).
  assert (0 < d * 2 ^ j) as Hdj by nia.
  exists (round_half_even a (d * 2 ^ j)), j.
  split; [done|]. split; [done|].
  assert (0 ≤ a / d) as Hq by (apply Z.div_pos; lia).
  split; [split|split; [|done]].
  - apply (round_half_even_ge a _ 0); lia.
  - apply round_half_even_le; [done|].
    pose proof (log2_lt_succ _ Hq) as Hup. fold L in Hup.
    assert (a < d * (a / d + 1)) as Hfl.
    { pose proof (Z.mod_pos_bound a d Hd). pose proof (Z.div_mod a d ltac:(lia)). nia. }
    assert (2 ^ (L + 1) ≤ 2 ^ (j + 53)) as Hp by (apply Z.pow_le_mono_r; lia).
    rewrite (Z.pow_add_r 2 j 53) in Hp by lia.
    assert (d * (a / d + 1) ≤ d * 2 ^ (L + 1))
      by (apply Z.mul_le_mono_nonneg_l; lia).
    assert (d * 2 ^ (L + 1) ≤ d * (2 ^ j * 2 ^ 53))
      by (apply Z.mul_le_mono_nonneg_l; lia).
    replace (2 ^ 53 * (d * 2 ^ j)) with (d * (2 ^ j * 2 ^ 53)) by ring.
    lia.
  - intros Hpos. apply round_half_even_ge; [done|].
    assert (j = L - 52 ∧ 0 < L) as [Hj2 HL] by lia.
    assert (0 < a / d) as Hq2.
    { destruct (Z.le_gt_cases (a / d) 0) as [Hn|]; [|done].
      pose proof (Z.log2_nonpos _ Hn) as Hz. fold L in Hz. lia. }
    pose proof (Z.log2_spec _ Hq2) as [Hlow _]. fold L in Hlow.
    pose proof (Z.mul_div_le a d Hd) as Hfl.
    replace L with (52 + j) in Hlow by lia.
    rewrite Z.pow_add_r in Hlow by lia.
    assert (d * (2 ^ 52 * 2 ^ j) ≤ d * (a / d))
      by (apply Z.mul_le_mono_nonneg_l; lia).
    replace (2 ^ 52 * (d * 2 ^ j)) with (d * (2 ^ 52 * 2 ^ j)) by ring.
    lia.
Qed.

Lemma nearest_ulps_representable a d :
  0 ≤ a → 0 < d → representable (nearest_ulps a d).
Proof.
  intros Ha Hd.
  destruct (nearest_ulps_shape a d Ha Hd) as (r & j & -> & Hj & Hr & Hnorm & _).
  destruct (Z.eq_dec r (2 ^ 53)) as [->|Hne].
  - exists (2 ^ 52), (j + 1). rewrite Z.pow_add_r by lia.
    split; [change (2 ^ 53) with (2 ^ 52 * 2 ^ 1); ring|]. lia.
  - exists r, j. split; [done|]. split; [done|]. split; [lia|done].
Qed.

Lemma nearest_ulps_nonneg a d : 0 ≤ a → 0 < d → 0 ≤ nearest_ulps a d.
Proof.
  intros Ha Hd.
  destruct (nearest_ulps_shape a d Ha Hd) as (r & j & -> & Hj & Hr & _).
  assert (0 < 2 ^ j) by (apply Z.pow_pos_nonneg; lia). nia.
Qed.

(** A representable magnitude is its own nearest one. *)
Lemma nearest_ulps_id n : representable n → nearest_ulps n 1 = n.
Proof.
  intros (r & j & -> & Hj & Hr & Hnorm).
  assert (0 < 2 ^ j) by (apply Z.pow_pos_nonneg; lia).
  destruct (Z.eq_dec r 0) as [->|Hne]; [done|].
  unfold nearest_ulps. rewrite Z.div_1_r.
  destruct (representable_log2 (r * 2 ^ j) r j eq_refl Hj ltac:(lia) Hnorm) as [-> _].
  rewrite Z.mul_1_l. by rewrite round_half_even_multiple.
Qed.

(** ** Packing a magnitude *)

Lemma of_ulps_representable s n r j :
  n = r * 2 ^ j → 0 ≤ j → 0 < r < 2 ^ 53 → (0 < j → 2 ^ 52 ≤ r) →
  of_ulps s n =
    if j <=? 2045 then S754_finite s (Z.to_pos r) (j - 1074) else S754_infinity s.
Proof.
  intros Hn Hj Hr Hnorm.
  destruct (representable_log2 n r j Hn Hj Hr Hnorm) as [HJ Hdiv].
  assert (0 < 2 ^ j) by (apply Z.pow_pos_nonneg; lia).
  assert (0 < n) as Hpos by nia.
  unfold of_ulps. destruct n as [|p|p]; [lia| |lia].
  by rewrite HJ, Hdiv.
Qed.

Lemma bounded_iff m e :
  bounded prec emax m e = true ↔
  -1074 ≤ e ≤ 971 ∧ Zpos m < 2 ^ 53 ∧ (-1074 < e → 2 ^ 52 ≤ Zpos m).
Proof.
  unfold bounded, canonical_mantissa, fexp, emin, prec, emax.
  rewrite andb_true_iff, Z.eqb_eq, Z.leb_le, digits2_pos_log2.
  pose proof (Z.log2_nonneg (Zpos m)).
  split.
  - intros [Hc He]. split; [lia|]. split.
    + apply Z.log2_lt_pow2; lia.
    + intros Hlt. apply Z.log2_le_pow2; lia.
  - intros (He & Hm & Hnorm).
    assert (Z.log2 (Zpos m) < 53) by (apply Z.log2_lt_pow2; lia).
    split; [|lia].
    destruct (Z.eq_dec e (-1074)) as [->|Hne]; [lia|].
    assert (52 ≤ Z.log2 (Zpos m)) by (apply Z.log2_le_pow2; lia).
    lia.
Qed.

Lemma of_ulps_valid s n :
  representable n → valid_binary (of_ulps s n) = true.
Proof.
  intros (r & j & Hn & Hj & Hr & Hnorm).
  destruct (Z.eq_dec r 0) as [->|Hne]; [by subst n|].
  rewrite (of_ulps_representable s n r j Hn Hj ltac:(lia) Hnorm).
  destruct (Z.leb_spec j 2045); [|done]. simpl.
  apply bounded_iff. rewrite Z2Pos.id by lia. lia.
Qed.

Lemma ulps_representable m e :
  bounded prec emax m e = true →
  ulps m e = Zpos m * 2 ^ (e + 1074) ∧ 0 ≤ e + 1074 ≤ 2045 ∧
  0 < Zpos m < 2 ^ 53 ∧ (0 < e + 1074 → 2 ^ 52 ≤ Zpos m).
Proof. intros H%bounded_iff. unfold ulps. lia. Qed.

Lemma of_ulps_ulps s m e :
  bounded prec emax m e = true → of_ulps s (ulps m e) = S754_finite s m e.
Proof.
  intros (Hu & He & Hm & Hnorm)%ulps_representable.
  rewrite (of_ulps_representable s _ _ _ Hu ltac:(lia) Hm Hnorm).
  destruct (Z.leb_spec (e + 1074) 2045); [|lia].
  f_equal. lia.
Qed.

Lemma nonneg_cases x :
  nonneg x ↔
  match x with
  | S754_zero _ => True
  | S754_infinity s | S754_finite s _ _ => s = false
  | S754_nan => False
  end.
Proof.
  unfold nonneg, SFleb. destruct x as [s|[]| |[] m e]; simpl; split; try done.
Qed.

Lemma ulps_bounds m e :
  bounded prec emax m e = true → 0 < ulps m e < 2 ^ 2098.
Proof.
  intros (-> & He & Hm & Hnorm)%ulps_representable.
  assert (0 < 2 ^ (e + 1074)) by (apply Z.pow_pos_nonneg; lia).
  assert (2 ^ (e + 1074) ≤ 2 ^ 2045) by (apply Z.pow_le_mono_r; lia).
  change (2 ^ 2098) with (2 ^ 53 * 2 ^ 2045).
  split; [nia|].
  apply Z.lt_le_trans with (2 ^ 53 * 2 ^ (e + 1074)).
  - apply Z.mul_lt_mono_pos_r; lia.
  - apply Z.mul_le_mono_nonneg_l; lia.
Qed.

Lemma ulps_compare m1 e1 m2 e2 :
  bounded prec emax m1 e1 = true → bounded prec emax m2 e2 = true →
  match e1 ?= e2 with
  | Lt => Lt
  | Gt => Gt
  | Eq => Pos.compare_cont Eq m1 m2
  end = (ulps m1 e1 ?= ulps m2 e2).
Proof.
  intros (-> & He1 & Hm1 & Hn1)%ulps_representable
         (-> & He2 & Hm2 & Hn2)%ulps_representable.
  assert (∀ m e m' e', 0 ≤ e + 1074 → Zpos m < 2 ^ 53 → 2 ^ 52 ≤ Zpos m' → e < e' →
            Zpos m * 2 ^ (e + 1074) < Zpos m' * 2 ^ (e' + 1074)) as Hlt.
  { intros m e m' e' He Hm Hm' Hee.
    assert (0 < 2 ^ (e + 1074)) by (apply Z.pow_pos_nonneg; lia).
    assert (2 ^ (e + 1074 + 1) ≤ 2 ^ (e' + 1074)) as Hp
      by (apply Z.pow_le_mono_r; lia).
    rewrite Z.pow_add_r in Hp by lia.
    apply Z.lt_le_trans with (2 ^ 53 * 2 ^ (e + 1074)).
    - apply Z.mul_lt_mono_pos_r; lia.
    - apply Z.le_trans with (2 ^ 52 * 2 ^ (e' + 1074)).
      + change (2 ^ 53) with (2 ^ 52 * 2). change (2 ^ 1) with 2 in Hp.
        rewrite <- Z.mul_assoc. apply Z.mul_le_mono_nonneg_l; lia.
      + apply Z.mul_le_mono_nonneg_r; [|done].
        apply Z.pow_nonneg; lia. }
  destruct (Z.compare_spec e1 e2) as [->|Hee|Hee].
  - assert (0 < 2 ^ (e2 + 1074)) as Hp by (apply Z.pow_pos_nonneg; lia).
    change (Pos.compare_cont Eq m1 m2) with (Zpos m1 ?= Zpos m2).
    apply Zmult_compare_compat_r. lia.
  - symmetry. apply Z.compare_lt_iff. apply Hlt; lia.
  - symmetry. apply Z.compare_gt_iff. apply Hlt; lia.
Qed.

(** On valid floats that are at least zero, [<=] compares magnitudes. *)
Lemma SFleb_magnitude x y :
  valid_binary x = true → valid_binary y = true → nonneg x → nonneg y →
  SFleb x y = (magnitude x <=? magnitude y).
Proof.
  intros Hvx Hvy Hx%nonneg_cases Hy%nonneg_cases.
  assert ((0:Z) < 2 ^ 2098) as H98 by done.
  assert ((2:Z) ^ 2098 < 2 ^ 2100) as H100 by done.
  destruct x as [sx|sx| |sx mx ex]; [| |done|];
    (destruct y as [sy|sy| |sy my ey]; [| |done|]); subst;
    try (pose proof (ulps_bounds _ _ Hvx) as Hbx);
    try (pose proof (ulps_bounds _ _ Hvy) as Hby);
    unfold SFleb; cbn [SFcompare magnitude].
  - done.
  - done.
  - symmetry. apply Z.leb_le. lia.
  - done.
  - done.
  - symmetry. apply Z.leb_gt. lia.
  - symmetry. apply Z.leb_gt. lia.
  - symmetry. apply Z.leb_le. lia.
  - rewrite (ulps_compare _ _ _ _ Hvx Hvy).
    unfold Z.leb. by destruct (ulps mx ex ?= ulps my ey).
Qed.

Lemma magnitude_of_ulps s n :
  representable n →
  magnitude (of_ulps s n) = if n <? 2 ^ 2098 then n else 2 ^ 2100.
Proof.
  intros (r & j & Hn & Hj & Hr & Hnorm).
  destruct (Z.eq_dec r 0) as [->|Hne]; [by subst n|].
  rewrite (of_ulps_representable s n r j Hn Hj ltac:(lia) Hnorm).
  assert (0 < 2 ^ j) by (apply Z.pow_pos_nonneg; lia).
  destruct (Z.leb_spec j 2045) as [Hle|Hgt]; cbn [magnitude].
  - assert (2 ^ j ≤ 2 ^ 2045) by (apply Z.pow_le_mono_r; lia).
    assert (n < 2 ^ 2098) as Hlt.
    { subst n. change (2 ^ 2098) with (2 ^ 53 * 2 ^ 2045).
      apply Z.lt_le_trans with (2 ^ 53 * 2 ^ j).
      - apply Z.mul_lt_mono_pos_r; lia.
      - apply Z.mul_le_mono_nonneg_l; lia. }
    apply Z.ltb_lt in Hlt as ->.
    unfold ulps. rewrite Z2Pos.id by lia. subst n. f_equal. f_equal. lia.
  - assert (2 ^ 2046 ≤ 2 ^ j) by (apply Z.pow_le_mono_r; lia).
    assert (2 ^ 2098 ≤ n) as Hge.
    { subst n. change (2 ^ 2098) with (2 ^ 52 * 2 ^ 2046).
      apply Z.le_trans with (2 ^ 52 * 2 ^ j).
      - apply Z.mul_le_mono_nonneg_l; lia.
      - apply Z.mul_le_mono_nonneg_r; lia. }
    by apply Z.ltb_ge in Hge as ->.
Qed.

Lemma of_ulps_nonneg n : nonneg (of_ulps false n).
Proof.
  apply nonneg_cases. unfold of_ulps. destruct n; [done| |done].
  by destruct (_ <=? _).
Qed.

(** Packing a magnitude is monotone. *)
Lemma of_ulps_mono n1 n2 :
  representable n1 → representable n2 → n1 ≤ n2 →
  SFleb (of_ulps false n1) (of_ulps false n2) = true.
Proof.
  intros H1 H2 Hle.
  rewrite SFleb_magnitude by auto using of_ulps_valid, of_ulps_nonneg.
  apply Z.leb_le. rewrite !magnitude_of_ulps by done.
  assert ((2:Z) ^ 2098 < 2 ^ 2100) by done.
  destruct (Z.ltb_spec n1 (2 ^ 2098)); destruct (Z.ltb_spec n2 (2 ^ 2098)); lia.
Qed.

(** ** Shifting right with a round bit and a sticky bit *)

Lemma iter_pos_comm {A : Type} (f : A → A) p x :
  SpecFloat.iter_pos f p (f x) = f (SpecFloat.iter_pos f p x).
Proof.
  revert x. induction p as [p IH|p IH|]; intros x; simpl; [| |done].
  - by rewrite !IH.
  - by rewrite !IH.
Qed.

Lemma iter_pos_iter {A : Type} (f : A → A) p x :
  SpecFloat.iter_pos f p x = Pos.iter f x p.
Proof.
  revert x. induction p as [p IH|p IH|]; intros x; simpl; [| |done].
  - by rewrite !iter_pos_comm, !IH.
  - by rewrite !IH.
Qed.

Lemma shr_1_nonneg m r s :
  0 ≤ m →
  shr_1 (Build_shr_record m r s) = Build_shr_record (m / 2) (Z.odd m) (r || s).
Proof.
  intros Hm. destruct m as [|p|p]; [done| |lia].
  destruct p as [p|p|]; simpl; try done.
  - f_equal. rewrite Pos2Z.inj_xI.
    rewrite Z.mul_comm, Z.div_add_l by lia. by rewrite Z.div_small, Z.add_0_r.
  - f_equal. rewrite Pos2Z.inj_xO. rewrite Z.mul_comm. by rewrite Z.div_mul.
Qed.

Lemma pow2_pos_pred p : 2 ^ Zpos p = 2 ^ (Zpos p - 1) * 2.
Proof.
  replace (Zpos p) with (Z.succ (Zpos p - 1)) at 1 by lia.
  rewrite Z.pow_succ_r by lia. ring.
Qed.

Lemma iter_shr_1 M p :
  0 ≤ M →
  SpecFloat.iter_pos shr_1 p (Build_shr_record M false false) =
  Build_shr_record (M / 2 ^ Zpos p)
    (Z.odd (M / 2 ^ (Zpos p - 1)))
    (negb (M mod 2 ^ (Zpos p - 1) =? 0)).
Proof.
  intros HM. rewrite iter_pos_iter.
  induction p as [|p IH] using Pos.peano_ind.
  - cbn [Pos.iter]. rewrite shr_1_nonneg by done.
    change (Zpos 1 - 1) with 0. change (2 ^ 1) with 2. change (2 ^ 0) with 1.
    by rewrite Z.div_1_r, Z.mod_1_r.
  - rewrite Pos.iter_succ, IH.
    assert (0 < 2 ^ Zpos p) by (apply Z.pow_pos_nonneg; lia).
    assert (0 < 2 ^ (Zpos p - 1)) by (apply Z.pow_pos_nonneg; lia).
    rewrite shr_1_nonneg by (apply Z.div_pos; lia).
    rewrite Pos2Z.inj_succ.
    replace (Z.succ (Zpos p) - 1) with (Zpos p) by lia.
    f_equal.
    + rewrite Z.pow_succ_r by lia. rewrite Z.div_div by lia. f_equal. ring.
    + rewrite (pow2_pos_pred p). rewrite Z.rem_mul_r by lia. rewrite Zmod_odd.
      destruct (Z.odd (M / 2 ^ (Zpos p - 1))); simpl.
      * symmetry. apply negb_true_iff, Z.eqb_neq.
        pose proof (Z.mod_pos_bound M (2 ^ (Zpos p - 1)) ltac:(lia)). lia.
      * f_equal. f_equal. lia.
Qed.

(** Rounding the shifted mantissa with its two bits is rounding the
    quotient to the nearest integer, ties to even. *)
Lemma round_shifted M p :
  0 ≤ M →
  let mrs := SpecFloat.iter_pos shr_1 p (Build_shr_record M false false) in
  round_nearest_even (shr_m mrs) (loc_of_shr_record mrs) =
  round_half_even M (2 ^ Zpos p).
Proof.
  intros HM. rewrite iter_shr_1 by done. cbn zeta. cbn [shr_m].
  assert (0 < 2 ^ (Zpos p - 1)) as Hh by (apply Z.pow_pos_nonneg; lia).
  pose proof (pow2_pos_pred p) as Hp.
  unfold round_half_even.
  assert (M mod 2 ^ Zpos p =
          M mod 2 ^ (Zpos p - 1) +
          2 ^ (Zpos p - 1) * (if Z.odd (M / 2 ^ (Zpos p - 1)) then 1 else 0)) as Hrem.
  { rewrite Hp at 1. rewrite Z.rem_mul_r by lia. by rewrite Zmod_odd. }
  pose proof (Z.mod_pos_bound M (2 ^ (Zpos p - 1)) Hh) as Hs.
  rewrite Hrem. set (σ := M mod 2 ^ (Zpos p - 1)) in *.
  set (q := M / 2 ^ Zpos p).
  rewrite Hp. set (h := 2 ^ (Zpos p - 1)) in *.
  destruct (Z.odd (M / h)); destruct (Z.eqb_spec σ 0) as [Hz|Hz]; simpl.
  - rewrite Hz. replace (2 * (0 + h * 1) ?= h * 2) with Eq; [done|].
    symmetry. apply Z.compare_eq_iff. lia.
  - replace (2 * (σ + h * 1) ?= h * 2) with Gt; [done|].
    symmetry. apply Z.compare_gt_iff. lia.
  - replace (2 * (σ + h * 0) ?= h * 2) with Lt; [done|].
    symmetry. apply Z.compare_lt_iff. lia.
  - replace (2 * (σ + h * 0) ?= h * 2) with Lt; [done|].
    symmetry. apply Z.compare_lt_iff. lia.
Qed.

Lemma fexp_eq x : fexp prec emax x = Z.max (x - 53) (-1074).
Proof. reflexivity. Qed.

Lemma Zdigits2_log2 M : 0 < M → Zdigits2 M = Z.log2 M + 1.
Proof. destruct M as [|p|p]; [lia| |lia]. intros _. apply digits2_pos_log2. Qed.

(** First stage of [binary_round_aux]: the mantissa is shifted to the
    exponent of its binade and rounded. *)
Lemma shr_fexp_exact M e0 :
  0 < M → e0 ≤ fexp prec emax (Zdigits2 M + e0) →
  ∃ mrs,
    shr_fexp prec emax M e0 loc_Exact = (mrs, fexp prec emax (Zdigits2 M + e0)) ∧
    round_nearest_even (shr_m mrs) (loc_of_shr_record mrs) =
      round_half_even M (2 ^ (fexp prec emax (Zdigits2 M + e0) - e0)).
Proof.
  intros HM Hpre. unfold shr_fexp, shr. cbn [shr_record_of_loc].
  set (E := fexp prec emax (Zdigits2 M + e0)) in *.
  destruct (E - e0) as [|p|p] eqn:Hn; [| |lia].
  - eexists. split; [f_equal; lia|]. cbn.
    rewrite <- (Z.mul_1_r M) at 2. by rewrite round_half_even_multiple.
  - eexists. split; [f_equal; lia|]. apply round_shifted. lia.
Qed.

(** Last stage: a carry to 2^53 is renormalised, and the result packed. *)
Lemma pack_rounded s m2 E :
  -1074 ≤ E → 0 ≤ m2 ≤ 2 ^ 53 → (-1074 < E → 2 ^ 52 ≤ m2) →
  (let '(mrs, e) := shr_fexp prec emax m2 E loc_Exact in
   match shr_m mrs with
   | Z0 => S754_zero s
   | Zpos m => if e <=? emax - prec then S754_finite s m e else S754_infinity s
   | Zneg _ => S754_nan
   end) = of_ulps s (m2 * 2 ^ (E + 1074)).
Proof.
  intros HE Hm Hnorm.
  destruct (Z.eq_dec m2 0) as [->|Hne0].
  { unfold shr_fexp, shr. cbn [shr_record_of_loc Zdigits2].
    rewrite fexp_eq. by destruct (Z.max (0 + E - 53) (-1074) - E) as [|p|p] eqn:Hn; [|lia|]. }
  destruct (Z.eq_dec m2 (2 ^ 53)) as [->|Hne].
  - unfold shr_fexp, shr. cbn [shr_record_of_loc].
    change (Zdigits2 (2 ^ 53)) with 54. rewrite fexp_eq.
    replace (Z.max (54 + E - 53) (-1074) - E) with 1 by lia.
    cbn [SpecFloat.iter_pos]. change (2 ^ 53) with (Zpos (xO (Z.to_pos (2 ^ 52)))) at 1.
    cbn [shr_1 shr_m].
    rewrite (of_ulps_representable s _ (2 ^ 52) (E + 1075)); [| |lia|done|lia].
    + change (emax - prec) with 971.
      destruct (Z.leb_spec (E + 1) 971); destruct (Z.leb_spec (E + 1075) 2045);
        try lia; [|done]. f_equal. lia.
    + replace (E + 1075) with (Z.succ (E + 1074)) by lia.
      rewrite Z.pow_succ_r by lia. change (2 ^ 53) with (2 ^ 52 * 2). ring.
  - assert (0 < m2 < 2 ^ 53) as Hm' by lia.
    assert (Z.log2 m2 < 53) by (apply Z.log2_lt_pow2; lia).
    unfold shr_fexp, shr. cbn [shr_record_of_loc].
    rewrite Zdigits2_log2, fexp_eq by lia.
    destruct (Z.max (Z.log2 m2 + 1 + E - 53) (-1074) - E) as [|p|p] eqn:Hn; [|lia|];
      cbn [shr_m];
      rewrite (of_ulps_representable s _ m2 (E + 1074) eq_refl ltac:(lia) Hm'
                 ltac:(intros; apply Hnorm; lia));
      change (emax - prec) with 971;
      (destruct m2 as [|m|m]; [lia| |lia]);
      (destruct (Z.leb_spec E 971); destruct (Z.leb_spec (E + 1074) 2045);
        try lia; [|done]); f_equal; lia.
Qed.

(** The nearest magnitude to [M * 2^e0], from the rounded mantissa. *)
Lemma nearest_dyadic_eq M e0 :
  0 < M →
  let E := fexp prec emax (Zdigits2 M + e0) in
  e0 ≤ E →
  nearest_dyadic M e0 = round_half_even M (2 ^ (E - e0)) * 2 ^ (E + 1074).
Proof.
  intros HM E Hpre. subst E. rewrite Zdigits2_log2, fexp_eq in * by done.
  set (E := Z.max (Z.log2 M + 1 + e0 - 53) (-1074)) in *.
  pose proof (Z.log2_nonneg M) as HL.
  unfold nearest_dyadic.
  destruct (Z.leb_spec 0 (e0 + 1074)) as [Hk|Hk].
  - unfold nearest_ulps. rewrite Z.div_1_r, Z.log2_mul_pow2 by lia.
    replace (Z.max 0 (e0 + 1074 + Z.log2 M - 52)) with (E + 1074) by lia.
    f_equal. apply round_half_even_ratio.
    + assert (0 < 2 ^ (E + 1074)) by (apply Z.pow_pos_nonneg; lia). lia.
    + apply Z.pow_pos_nonneg; lia.
    + rewrite Z.mul_1_l, <- Z.mul_assoc, <- Z.pow_add_r by lia.
      f_equal. f_equal. lia.
  - unfold nearest_ulps.
    rewrite <- Z.shiftr_div_pow2, Z.log2_shiftr by lia.
    replace (Z.max 0 (Z.max 0 (Z.log2 M - - (e0 + 1074)) - 52)) with (E + 1074) by lia.
    rewrite <- Z.pow_add_r by lia.
    f_equal. f_equal. f_equal. lia.
Qed.

Lemma rounded_mantissa_bounds M e0 :
  0 < M →
  let E := fexp prec emax (Zdigits2 M + e0) in
  e0 ≤ E →
  -1074 ≤ E ∧ 0 ≤ round_half_even M (2 ^ (E - e0)) ≤ 2 ^ 53 ∧
  (-1074 < E → 2 ^ 52 ≤ round_half_even M (2 ^ (E - e0))).
Proof.
  intros HM E Hpre. subst E. rewrite Zdigits2_log2, fexp_eq in * by done.
  set (E := Z.max (Z.log2 M + 1 + e0 - 53) (-1074)) in *.
  pose proof (Z.log2_spec M HM) as [Hlow Hup].
  pose proof (Z.log2_nonneg M) as HL.
  assert (0 < 2 ^ (E - e0)) as Hp by (apply Z.pow_pos_nonneg; lia).
  split; [lia|]. split; [split|].
  - apply (round_half_even_ge M _ 0); lia.
  - apply round_half_even_le; [done|].
    rewrite <- Z.pow_add_r by lia.
    assert (2 ^ Z.succ (Z.log2 M) ≤ 2 ^ (53 + (E - e0))) by (apply Z.pow_le_mono_r; lia).
    lia.
  - intros HE. apply round_half_even_ge; [done|].
    rewrite <- Z.pow_add_r by lia.
    replace (52 + (E - e0)) with (Z.log2 M) by lia. done.
Qed.

(** [binary_round_aux] on an exact mantissa and exponent returns the
    nearest double. *)
Theorem binary_round_aux_exact s M e0 :
  0 < M → e0 ≤ fexp prec emax (Zdigits2 M + e0) →
  binary_round_aux prec emax s M e0 loc_Exact = of_ulps s (nearest_dyadic M e0).
Proof.
  intros HM Hpre. unfold binary_round_aux.
  destruct (shr_fexp_exact M e0 HM Hpre) as (mrs & -> & ->).
  destruct (rounded_mantissa_bounds M e0 HM Hpre) as (HE & Hm & Hnorm).
  rewrite (nearest_dyadic_eq M e0 HM Hpre).
  by apply pack_rounded.
Qed.

Lemma round2_agrees_on_samples :
  forallb (λ x, SFeqb (Prim2SF (round2 x)) (Prim2SF (round2_by_division x))
                || (is_nan x)) samples = true.
Proof. vm_compute. reflexivity. Qed.

(** ** From primitive floats to their specification *)

Lemma of_int_0 : Prim2SF (of_int 0) = S754_zero false.
Proof. vm_compute. reflexivity. Qed.

Lemma lit_0_75 : Prim2SF 0.75%float = S754_finite false 6755399441055744 (-53).
Proof. vm_compute. reflexivity. Qed.

Lemma fle_spec x y : fle x y ↔ SFleb (Prim2SF x) (Prim2SF y) = true.
Proof. unfold fle. by rewrite leb_spec. Qed.

Lemma fle_0_nonneg x : fle (of_int 0) x ↔ nonneg (Prim2SF x).
Proof. by rewrite fle_spec, of_int_0. Qed.

Lemma magnitude_nonneg x : valid_binary x = true → 0 ≤ magnitude x.
Proof.
  destruct x as [s|s| |s m e]; simpl; try done.
  intros H%ulps_bounds. lia.
Qed.

Lemma magnitude_le_inf x : valid_binary x = true → magnitude x ≤ 2 ^ 2100.
Proof.
  assert ((0:Z) ≤ 2 ^ 2100) as H0 by done.
  assert ((2:Z) ^ 2098 ≤ 2 ^ 2100) as H1 by done.
  destruct x as [s|s| |s m e]; cbn [magnitude valid_binary]; try done.
  intros Hb%ulps_bounds. lia.
Qed.

(** Whatever is above a float that is at least zero is at least zero. *)
Lemma SFleb_nonneg_r x y : nonneg x → SFleb x y = true → nonneg y.
Proof.
  intros Hx%nonneg_cases Hxy. apply nonneg_cases.
  destruct x as [sx|sx| |sx mx ex]; [| |done|];
    (destruct y as [sy|sy| |sy my ey]; [done| |done|]); subst;
    unfold SFleb in Hxy; cbn [SFcompare] in Hxy; by destruct sy.
Qed.

Lemma nonneg_le x y :
  valid_binary x = true → valid_binary y = true → nonneg x → nonneg y →
  SFleb x y = true ↔ magnitude x ≤ magnitude y.
Proof. intros. rewrite SFleb_magnitude by done. apply Z.leb_le. Qed.

(** ** Addition and multiplication of floats that are at least zero *)

Lemma pos_iter_xO m d : Zpos (Pos.iter xO m d) = Zpos m * 2 ^ Zpos d.
Proof.
  induction d as [|d IH] using Pos.peano_ind.
  - simpl. lia.
  - rewrite Pos.iter_succ, Pos2Z.inj_xO, IH, Pos2Z.inj_succ, Z.pow_succ_r by lia.
    ring.
Qed.

(** [binary_round] returns a packed magnitude with the sign it is given. *)
Lemma binary_round_packed s m e :
  ∃ n, binary_round prec emax s m e = of_ulps s n.
Proof.
  unfold binary_round, shl_align.
  set (E := fexp prec emax (Zpos (digits2_pos m) + e)).
  destruct (E - e) as [|d|d] eqn:Hd.
  - eexists. apply binary_round_aux_exact; [done|].
    change (Zdigits2 (Zpos m)) with (Zpos (digits2_pos m)). fold E. clearbody E. lia.
  - eexists. apply binary_round_aux_exact; [done|].
    change (Zdigits2 (Zpos m)) with (Zpos (digits2_pos m)). fold E. clearbody E. lia.
  - eexists. apply binary_round_aux_exact; [done|].
    rewrite Zdigits2_log2, pos_iter_xO by done.
    rewrite Z.log2_mul_pow2 by lia.
    subst E. rewrite !digits2_pos_log2 in *. rewrite !fexp_eq in *.
    change (Zneg d) with (- Zpos d) in Hd. lia.
Qed.

Lemma SFadd_nonneg x y :
  nonneg x → nonneg y → nonneg (SFadd prec emax x y).
Proof.
  intros Hx%nonneg_cases Hy%nonneg_cases. apply nonneg_cases.
  destruct x as [sx|sx| |sx mx ex]; [| |done|];
    (destruct y as [sy|sy| |sy my ey]; [| |done|]); subst; cbn [SFadd]; try done.
  - by destruct sx, sy.
  - cbn [cond_Zopp]. unfold binary_normalize.
    rewrite <- Pos2Z.inj_add.
    destruct (binary_round_packed false
      (fst (shl_align mx ex (Z.min ex ey)) + fst (shl_align my ey (Z.min ex ey)))
      (Z.min ex ey)) as [n ->].
    apply nonneg_cases, of_ulps_nonneg.
Qed.

(** The product with 0.75. *)
Lemma SFmul_0_75 mx ex :
  bounded prec emax mx ex = true →
  SFmul prec emax (S754_finite false mx ex)
    (S754_finite false 6755399441055744 (-53)) =
  of_ulps false (nearest_ulps (3 * ulps mx ex) 4).
Proof.
  intros Hv. pose proof Hv as (Hu & He & Hm & Hnorm)%ulps_representable.
  cbn [SFmul xorb]. rewrite Pos2Z.inj_mul.
  set (c := Zpos 6755399441055744).
  assert (Z.log2 c = 52) as Hc by done.
  pose proof (Z.log2_nonneg (Zpos mx)) as HL.
  rewrite binary_round_aux_exact; first last.
  { rewrite Zdigits2_log2, fexp_eq by lia.
    pose proof (Z.log2_mul_below (Zpos mx) c ltac:(lia) ltac:(done)). lia. }
  { lia. }
  f_equal. unfold nearest_dyadic, ulps.
  assert (0 < 2 ^ (ex + 1074)) by (apply Z.pow_pos_nonneg; lia).
  destruct (Z.leb_spec 0 (ex + -53 + 1074)) as [Hk|Hk].
  - assert (0 < 2 ^ (ex + -53 + 1074)) by (apply Z.pow_pos_nonneg; lia).
    apply nearest_ulps_ratio; [nia|lia|lia|].
    replace (ex + 1074) with (53 + (ex + -53 + 1074)) by lia.
    rewrite (Z.pow_add_r 2 53 (ex + -53 + 1074)) by lia.
    change (2 ^ 53) with 9007199254740992. subst c. ring.
  - assert (0 < 2 ^ (- (ex + -53 + 1074))) by (apply Z.pow_pos_nonneg; lia).
    apply nearest_ulps_ratio; [lia|lia|lia|].
    rewrite <- !Z.mul_assoc, <- Z.pow_add_r by lia.
    replace (ex + 1074 + - (ex + -53 + 1074)) with 53 by lia.
    change (2 ^ 53) with 9007199254740992. subst c. ring.
Qed.

Lemma SFmul_0_75_nonneg x :
  valid_binary x = true → nonneg x →
  nonneg (SFmul prec emax x (S754_finite false 6755399441055744 (-53))).
Proof.
  intros Hv Hx%nonneg_cases.
  destruct x as [sx|sx| |sx mx ex]; [| |done|]; subst.
  - by apply nonneg_cases.
  - by apply nonneg_cases.
  - rewrite SFmul_0_75 by done. apply of_ulps_nonneg.
Qed.

Lemma SFmul_0_75_le x :
  valid_binary x = true → nonneg x →
  SFleb (SFmul prec emax x (S754_finite false 6755399441055744 (-53))) x = true.
Proof.
  intros Hv Hx%nonneg_cases.
  destruct x as [sx|sx| |sx mx ex]; [| |done|]; subst.
  - done.
  - done.
  - rewrite SFmul_0_75 by done.
    pose proof Hv as (Hu & He & Hm & Hnorm)%ulps_representable.
    assert (representable (ulps mx ex)) as Hrep.
    { exists (Zpos mx), (ex + 1074). repeat split; try lia; done. }
    rewrite <- (of_ulps_ulps false mx ex Hv).
    pose proof (ulps_bounds mx ex Hv).
    apply of_ulps_mono; [apply nearest_ulps_representable; lia|done|].
    apply Z.le_trans with (nearest_ulps (ulps mx ex) 1).
    + apply nearest_ulps_mono; lia.
    + by rewrite nearest_ulps_id.
Qed.

(** ** Rounding to two places, on magnitudes *)

Lemma pow2_1074 : 2 ^ 1074 = 128 * 2 ^ 1067.
Proof. vm_compute. reflexivity. Qed.

Lemma pow2_1120 : 2 ^ 1120 = 9007199254740992 * 2 ^ 1067.
Proof. vm_compute. reflexivity. Qed.

Lemma pow2_1067_pos : 0 < 2 ^ 1067.
Proof. vm_compute. reflexivity. Qed.

Lemma round2_ulps_mono n1 n2 :
  0 ≤ n1 ≤ n2 → round2_ulps n1 ≤ round2_ulps n2.
Proof.
  intros Hn. unfold round2_ulps.
  pose proof pow2_1067_pos. rewrite pow2_1074. set (h := 2 ^ 1067) in *.
  assert (round_half_even (100 * n1) (128 * h) ≤ round_half_even (100 * n2) (128 * h)) as Hk.
  { apply round_half_even_mono; [lia|lia|].
    apply Z.mul_le_mono_nonneg_r; lia. }
  assert (0 ≤ round_half_even (100 * n1) (128 * h)) as Hk0.
  { apply (round_half_even_ge _ _ 0); lia. }
  apply nearest_ulps_mono; [|lia|lia|].
  - apply Z.mul_nonneg_nonneg; lia.
  - apply Z.mul_le_mono_nonneg_r; [lia|].
    apply Z.mul_le_mono_nonneg_r; lia.
Qed.

Lemma round2_ulps_representable n : 0 ≤ n → representable (round2_ulps n).
Proof.
  intros Hn. apply nearest_ulps_representable; [|lia].
  pose proof pow2_1067_pos. rewrite pow2_1074. set (h := 2 ^ 1067) in *.
  apply Z.mul_nonneg_nonneg; [|lia].
  apply (round_half_even_ge _ _ 0); lia.
Qed.

(** Below 2^46 the nearest double to [k / 100] is within half a
    hundredth of it, so it rounds back to [k]. *)
Lemma round_back_small k :
  0 ≤ k < 100 * 2 ^ 46 →
  round_half_even (100 * nearest_ulps (k * 2 ^ 1074) 100) (2 ^ 1074) = k.
Proof.
  intros Hk. unfold nearest_ulps.
  set (j := Z.max 0 (Z.log2 (k * 2 ^ 1074 / 100) - 52)).
  assert (0 ≤ j ≤ 1067) as Hj.
  { split; [lia|]. subst j.
    assert (k * 2 ^ 1074 / 100 < 2 ^ 1120) as Hlt.
    { apply Z.div_lt_upper_bound; [lia|].
      change (2 ^ 1120) with (2 ^ 46 * 2 ^ 1074).
      rewrite Z.mul_assoc. apply Z.mul_lt_mono_pos_r; [done|lia]. }
    destruct (Z.le_gt_cases (k * 2 ^ 1074 / 100) 0) as [Hz|Hpos].
    - rewrite (Z.log2_nonpos _ Hz). lia.
    - apply Z.log2_lt_pow2 in Hlt; lia. }
  assert (0 < 2 ^ j) as HP by (apply Z.pow_pos_nonneg; lia).
  assert (2 ^ j ≤ 2 ^ 1067) as HPh by (apply Z.pow_le_mono_r; lia).
  pose proof (round_half_even_spec (k * 2 ^ 1074) (100 * 2 ^ j) ltac:(lia)) as [H1 H2].
  set (r := round_half_even (k * 2 ^ 1074) (100 * 2 ^ j)) in *.
  apply round_half_even_unique; [done|].
  pose proof pow2_1067_pos. rewrite pow2_1074 in *.
  set (h := 2 ^ 1067) in *. set (P := 2 ^ j) in *.
  replace (100 * P * (2 * r - 1)) with (200 * (r * P) - 100 * P) in H1 by ring.
  replace (100 * P * (2 * r + 1)) with (200 * (r * P) + 100 * P) in H2 by ring.
  replace (k * (128 * h)) with (128 * (k * h)) in * by ring.
  set (w := r * P) in *. set (v := k * h) in *. lia.
Qed.

(** A double below 2^46 is at least 2^-7 below it. *)
Lemma representable_below n :
  representable n → n < 2 ^ 1120 → n ≤ 2 ^ 1120 - 2 ^ 1067.
Proof.
  intros (r & j & -> & Hj & Hr & Hnorm) Hlt.
  pose proof pow2_1067_pos. rewrite pow2_1120 in *. set (h := 2 ^ 1067) in *.
  destruct (Z.le_gt_cases 1067 j) as [Hge|Hsmall].
  - replace j with ((j - 1067) + 1067) in * by lia.
    rewrite Z.pow_add_r in * by lia. fold h in Hlt |- *.
    assert (0 < 2 ^ (j - 1067)) by (apply Z.pow_pos_nonneg; lia).
    set (P := 2 ^ (j - 1067)) in *.
    rewrite Z.mul_assoc in *.
    assert (r * P < 9007199254740992) by (apply (Z.mul_lt_mono_pos_r h); lia).
    assert (r * P * h ≤ 9007199254740991 * h) by (apply Z.mul_le_mono_nonneg_r; lia).
    lia.
  - assert (2 ^ j * 2 ≤ h).
    { subst h. replace 1067 with (Z.succ 1066) by done.
      rewrite Z.pow_succ_r by lia.
      assert (2 ^ j ≤ 2 ^ 1066) by (apply Z.pow_le_mono_r; lia). lia. }
    assert (0 < 2 ^ j) by (apply Z.pow_pos_nonneg; lia).
    assert (r * 2 ^ j ≤ 9007199254740992 * 2 ^ j).
    { apply Z.mul_le_mono_nonneg_r; [lia|]. change (2 ^ 53) with 9007199254740992 in Hr. lia. }
    lia.
Qed.

Lemma round_half_even_below n :
  representable n → n < 2 ^ 1120 →
  round_half_even (100 * n) (2 ^ 1074) < 100 * 2 ^ 46.
Proof.
  intros Hrep Hlt. pose proof (representable_below n Hrep Hlt) as Hle.
  pose proof pow2_1067_pos. rewrite pow2_1074, pow2_1120 in *.
  set (h := 2 ^ 1067) in *.
  apply Z.le_lt_trans with (round_half_even (100 * 9007199254740991) 128); [|done].
  apply round_half_even_mono; lia.
Qed.

(** From 2^46 on, a double is its own rounding to two places. *)
Lemma round2_ulps_large n :
  representable n → 2 ^ 1120 ≤ n → round2_ulps n = n.
Proof.
  intros (r & j & -> & Hj & Hr & Hnorm) Hge.
  pose proof pow2_1067_pos as Hh. rewrite pow2_1120 in Hge.
  change (2 ^ 53) with 9007199254740992 in Hr.
  change (2 ^ 52) with 4503599627370496 in Hnorm.
  assert (0 < 2 ^ j) as HQ by (apply Z.pow_pos_nonneg; lia).
  assert (1068 ≤ j) as Hj'.
  { destruct (Z.le_gt_cases 1068 j) as [|Hs]; [done|]. exfalso.
    assert (2 ^ j ≤ 2 ^ 1067) by (apply Z.pow_le_mono_r; lia).
    assert (r * 2 ^ j < 9007199254740992 * 2 ^ j) by (apply Z.mul_lt_mono_pos_r; lia).
    lia. }
  specialize (Hnorm ltac:(lia)).
  assert (2 * 2 ^ 1067 ≤ 2 ^ j) as HQh.
  { rewrite <- (Z.pow_succ_r 2 1067) by lia. apply Z.pow_le_mono_r; lia. }
  unfold round2_ulps.
  pose proof (round_half_even_spec (100 * (r * 2 ^ j)) (2 ^ 1074) ltac:(done)) as [H1 H2].
  set (k := round_half_even (100 * (r * 2 ^ j)) (2 ^ 1074)) in *.
  assert (100 * (4503599627370496 * 2 ^ j) ≤ k * 2 ^ 1074) as Hlow.
  { destruct (Z.eq_dec r 4503599627370496) as [->|Hne].
    - assert (k = 25 * 2 ^ (j - 1020)) as ->.
      { subst k. rewrite <- (round_half_even_multiple (25 * 2 ^ (j - 1020)) (2 ^ 1074)) by done.
        f_equal. rewrite <- Z.mul_assoc, <- Z.pow_add_r by lia.
        replace (j - 1020 + 1074) with (54 + j) by lia.
        rewrite Z.pow_add_r by lia. change (2 ^ 54) with 18014398509481984. ring. }
      rewrite <- Z.mul_assoc, <- Z.pow_add_r by lia.
      replace (j - 1020 + 1074) with (54 + j) by lia.
      rewrite Z.pow_add_r by lia. change (2 ^ 54) with 18014398509481984. lia.
    - assert (4503599627370497 * 2 ^ j ≤ r * 2 ^ j)
        by (apply Z.mul_le_mono_nonneg_r; lia).
      rewrite pow2_1074 in *. set (h := 2 ^ 1067) in *. set (Q := 2 ^ j) in *.
      set (w := r * Q) in *.
      replace (128 * h * (2 * k - 1)) with (256 * (k * h) - 128 * h) in H1 by ring.
      replace (128 * h * (2 * k + 1)) with (256 * (k * h) + 128 * h) in H2 by ring.
      replace (k * (128 * h)) with (128 * (k * h)) by ring.
      set (v := k * h) in *. lia. }
  assert (k * 2 ^ 1074 < 100 * (9007199254740992 * 2 ^ j)) as Hup.
  { assert (r * 2 ^ j ≤ 9007199254740991 * 2 ^ j)
      by (apply Z.mul_le_mono_nonneg_r; lia).
    rewrite pow2_1074 in *. set (h := 2 ^ 1067) in *. set (Q := 2 ^ j) in *.
    set (w := r * Q) in *.
    replace (128 * h * (2 * k - 1)) with (256 * (k * h) - 128 * h) in H1 by ring.
    replace (128 * h * (2 * k + 1)) with (256 * (k * h) + 128 * h) in H2 by ring.
    replace (k * (128 * h)) with (128 * (k * h)) by ring.
    set (v := k * h) in *. lia. }
  unfold nearest_ulps.
  assert (Z.log2 (k * 2 ^ 1074 / 100) = 52 + j) as ->.
  { apply Z.log2_unique; [lia|]. split.
    - apply Z.div_le_lower_bound; [lia|].
      rewrite Z.pow_add_r by lia. change (2 ^ 52) with 4503599627370496. lia.
    - apply Z.div_lt_upper_bound; [lia|].
      replace (Z.succ (52 + j)) with (53 + j) by lia.
      rewrite Z.pow_add_r by lia. change (2 ^ 53) with 9007199254740992. lia. }
  replace (Z.max 0 (52 + j - 52)) with j by lia.
  f_equal. apply round_half_even_unique; [lia|].
  rewrite pow2_1074 in *. set (h := 2 ^ 1067) in *. set (Q := 2 ^ j) in *.
  replace (128 * h * (2 * k - 1)) with (256 * (k * h) - 128 * h) in H1 by ring.
  replace (128 * h * (2 * k + 1)) with (256 * (k * h) + 128 * h) in H2 by ring.
  replace (k * (128 * h)) with (128 * (k * h)) by ring.
  replace (r * (100 * Q)) with (100 * (r * Q)) by ring.
  set (w := r * Q) in *. set (v := k * h) in *. lia.
Qed.

(** Rounding to two places twice is rounding once. *)
Lemma round2_ulps_idem n :
  representable n → 0 ≤ n → round2_ulps (round2_ulps n) = round2_ulps n.
Proof.
  intros Hrep Hn.
  destruct (Z.lt_ge_cases n (2 ^ 1120)) as [Hlt|Hge].
  - pose proof (round_half_even_below n Hrep Hlt) as Hk.
    assert (0 ≤ round_half_even (100 * n) (2 ^ 1074)) as Hk0.
    { apply (round_half_even_ge _ _ 0); [done|lia]. }
    unfold round2_ulps at 1 2. by rewrite round_back_small.
  - by rewrite !(round2_ulps_large n Hrep Hge).
Qed.

(** ** The laws on primitive floats *)

Lemma round2_spec x :
  Prim2SF (round2 x) =
  match Prim2SF x with
  | S754_finite s m e => of_ulps s (round2_ulps (ulps m e))
  | X => X
  end.
Proof.
  unfold round2. pose proof (Prim2SF_valid x) as Hv.
  destruct (Prim2SF x) as [s|s| |s m e] eqn:Hx; try done.
  apply Prim2SF_SF2Prim, of_ulps_valid, round2_ulps_representable.
  apply ulps_bounds in Hv. lia.
Qed.

Lemma round2_nonneg x : nonneg (Prim2SF x) → nonneg (Prim2SF (round2 x)).
Proof.
  rewrite round2_spec. intros Hx%nonneg_cases.
  destruct (Prim2SF x) as [s|s| |s m e]; [| |done|]; subst.
  - by apply nonneg_cases.
  - by apply nonneg_cases.
  - apply of_ulps_nonneg.
Qed.

Lemma fle_refl x : fle (of_int 0) x → fle x x.
Proof.
  rewrite fle_0_nonneg, fle_spec. intros Hx.
  apply nonneg_le; auto using Prim2SF_valid. lia.
Qed.

Lemma fle_trans x y z : fle (of_int 0) x → fle x y → fle y z → fle x z.
Proof.
  rewrite fle_0_nonneg, !fle_spec. intros Hx Hxy Hyz.
  pose proof (SFleb_nonneg_r _ _ Hx Hxy) as Hy.
  pose proof (SFleb_nonneg_r _ _ Hy Hyz) as Hz.
  apply nonneg_le in Hxy; auto using Prim2SF_valid.
  apply nonneg_le in Hyz; auto using Prim2SF_valid.
  apply nonneg_le; auto using Prim2SF_valid. lia.
Qed.

Lemma fadd_nonneg x y :
  fle (of_int 0) x → fle (of_int 0) y → fle (of_int 0) (x + y)%float.
Proof.
  rewrite !fle_0_nonneg, add_spec. apply SFadd_nonneg.
Qed.

Lemma fmul_0_75_nonneg x :
  fle (of_int 0) x → fle (of_int 0) (x * 0.75)%float.
Proof.
  rewrite !fle_0_nonneg, mul_spec, lit_0_75.
  apply SFmul_0_75_nonneg, Prim2SF_valid.
Qed.

Lemma fmul_0_75_le x : fle (of_int 0) x → fle (x * 0.75)%float x.
Proof.
  rewrite fle_0_nonneg, fle_spec, mul_spec, lit_0_75.
  apply SFmul_0_75_le, Prim2SF_valid.
Qed.

Lemma round2_mono x y :
  fle (of_int 0) x → fle x y → fle (round2 x) (round2 y).
Proof.
  rewrite fle_0_nonneg, !fle_spec. intros Hx Hxy.
  pose proof (SFleb_nonneg_r _ _ Hx Hxy) as Hy.
  pose proof (round2_nonneg x Hx) as Hrx. pose proof (round2_nonneg y Hy) as Hry.
  apply nonneg_le in Hxy; auto using Prim2SF_valid.
  apply nonneg_le; auto using Prim2SF_valid.
  pose proof (magnitude_nonneg _ (Prim2SF_valid (round2 y))) as H0.
  pose proof (magnitude_le_inf _ (Prim2SF_valid (round2 x))) as Hinf.
  rewrite !round2_spec in *.
  pose proof (Prim2SF_valid x) as Hvx. pose proof (Prim2SF_valid y) as Hvy.
  assert ((2:Z) ^ 2098 < 2 ^ 2100) as Hlt by done.
  destruct (Prim2SF x) as [sx|sx| |sx mx ex]; [| |by apply nonneg_cases in Hx|];
    (destruct (Prim2SF y) as [sy|sy| |sy my ey]; [| |by apply nonneg_cases in Hy|]);
    try (pose proof (ulps_bounds _ _ Hvx) as Hbx);
    try (pose proof (ulps_bounds _ _ Hvy) as Hby);
    cbn [magnitude] in Hxy |- *; try lia; try done.
  rewrite !magnitude_of_ulps by (apply round2_ulps_representable; lia).
  pose proof (round2_ulps_mono (ulps mx ex) (ulps my ey) ltac:(lia)).
  destruct (Z.ltb_spec (round2_ulps (ulps mx ex)) (2 ^ 2098));
    destruct (Z.ltb_spec (round2_ulps (ulps my ey)) (2 ^ 2098)); lia.
Qed.

Lemma round2_idem x : round2 (round2 x) = round2 x.
Proof.
  apply Prim2SF_inj. rewrite (round2_spec (round2 x)), (round2_spec x).
  pose proof (Prim2SF_valid x) as Hv.
  destruct (Prim2SF x) as [s|s| |s m e]; try done.
  pose proof (ulps_bounds _ _ Hv) as Hb.
  assert (representable (ulps m e)) as Hrep.
  { pose proof Hv as (Hu & He & Hm & Hnorm)%ulps_representable.
    exists (Zpos m), (e + 1074). repeat split; try lia; done. }
  pose proof (round2_ulps_representable (ulps m e) ltac:(lia)) as Hrep'.
  pose proof (round2_ulps_idem (ulps m e) Hrep ltac:(lia)) as Hidem.
  set (n := round2_ulps (ulps m e)) in *.
  destruct Hrep' as (r & j & Hn & Hj & Hr & Hnorm).
  destruct (Z.eq_dec r 0) as [->|Hne]; [by rewrite Hn|].
  rewrite (of_ulps_representable s n r j Hn Hj ltac:(lia) Hnorm).
  destruct (Z.leb_spec j 2045) as [Hle|Hgt]; [|done].
  assert (ulps (Z.to_pos r) (j - 1074) = n) as ->.
  { unfold ulps. rewrite Z2Pos.id by lia. rewrite Hn. f_equal. f_equal. lia. }
  rewrite Hidem.
  by rewrite (of_ulps_representable s n r j Hn Hj ltac:(lia) Hnorm),
    (proj2 (Z.leb_le _ _) Hle).
Qed.

(** [round(x, 2)] of a finite double is a zero or a finite double of the
    same sign: the two-place decimal is never too large to be read back,
    so the rounding has no overflow case. *)
Lemma round2_finite x s m e :
  Prim2SF x = S754_finite s m e →
  match Prim2SF (round2 x) with
  | S754_zero s' | S754_finite s' _ _ => s' = s
  | _ => False
  end.
Proof.
  intros Hx. pose proof (Prim2SF_valid x) as Hv. rewrite round2_spec, Hx.
  rewrite Hx in Hv. pose proof (ulps_bounds _ _ Hv) as Hb.
  assert (representable (2 ^ 1120)) as Hrep0.
  { exists (2 ^ 52), 1068. repeat split; try done. }
  assert (round2_ulps (ulps m e) < 2 ^ 2098) as Hlt.
  { destruct (Z.lt_ge_cases (ulps m e) (2 ^ 1120)) as [Hsmall|Hlarge].
    - apply Z.le_lt_trans with (round2_ulps (2 ^ 1120)).
      + apply round2_ulps_mono. lia.
      + by rewrite (round2_ulps_large _ Hrep0).
    - rewrite round2_ulps_large; [lia| |done].
      pose proof Hv as (Hu & He & Hm & Hnorm)%ulps_representable.
      exists (Zpos m), (e + 1074). repeat split; try lia; done. }
  pose proof (round2_ulps_representable (ulps m e) ltac:(lia)) as Hrep.
  set (n := round2_ulps (ulps m e)) in *.
  destruct Hrep as (r & j & Hn & Hj & Hr & Hnorm).
  destruct (Z.eq_dec r 0) as [->|Hne]; [by rewrite Hn|].
  rewrite (of_ulps_representable s n r j Hn Hj ltac:(lia) Hnorm).
  destruct (Z.leb_spec j 2045) as [Hle|Hgt]; [done|].
  specialize (Hnorm ltac:(lia)).
  assert (2 ^ 52 * 2 ^ 2046 ≤ r * 2 ^ j) as Hbig.
  { apply Z.mul_le_mono_nonneg; [done|done|done|].
    apply Z.pow_le_mono_r; lia. }
  change (2 ^ 52 * 2 ^ 2046) with (2 ^ 2098) in Hbig. lia.
Qed.

Lemma round2_twice x :
  fle (of_int 0) x → fle (round2 (round2 x)) (round2 x).
Proof.
  intros Hx. rewrite round2_idem. apply fle_refl.
  apply fle_0_nonneg, round2_nonneg. by apply fle_0_nonneg.
Qed.

Lemma round2_zero : fle (of_int 0) (round2 (of_int 0)).
Proof. vm_compute. reflexivity. Qed.

#[global] Instance py_float_order : PyFloatOrder float.
Proof.
  split; cbn [float_le float_of_int float_add float_mul float_lit_0_75
              float_round2 py_float]; intros;
    repeat match goal with H : Is_true _ |- _ => apply Is_true_true in H end;
    apply Is_true_true.
  - apply round2_zero || (vm_compute; reflexivity).
  - by apply fle_refl.
  - by eapply fle_trans.
  - by apply fadd_nonneg.
  - by apply fmul_0_75_nonneg.
  - by apply fmul_0_75_le.
  - by apply round2_mono.
  - apply round2_zero.
  - by apply round2_twice.
Qed.

End Binary64Laws.

(** ** Exact rational arithmetic: the order laws *)

Module ExactLaws.
Import Exact.

Lemma exact_round2_mono (x y : Q) : (x <= y)%Q → (round2 x <= round2 y)%Q.
Proof.
  unfold Qle, round2. simpl. intros Hxy.
  apply Z.mul_le_mono_nonneg_r; [lia|].
  apply Binary64Laws.round_half_even_mono; lia.
Qed.

Lemma exact_round2_twice (x : Q) : (round2 (round2 x) <= round2 x)%Q.
Proof.
  unfold round2 at 1 3. simpl Qnum. simpl Qden.
  rewrite Binary64Laws.round_half_even_multiple by lia. apply Qle_refl.
Qed.

#[global] Instance py_float_order : PyFloatOrder Q.
Proof.
  split; simpl.
  - done.
  - intros x _. apply Is_true_true, Qle_bool_iff, Qle_refl.
  - intros x y z _ Hxy%Is_true_true%Qle_bool_iff Hyz%Is_true_true%Qle_bool_iff.
    apply Is_true_true, Qle_bool_iff. by eapply Qle_trans.
  - intros x y Hx%Is_true_true%Qle_bool_iff Hy%Is_true_true%Qle_bool_iff.
    apply Is_true_true, Qle_bool_iff.
    change (inject_Z 0) with (0 + 0)%Q. by apply Qplus_le_compat.
  - intros x Hx%Is_true_true%Qle_bool_iff.
    apply Is_true_true, Qle_bool_iff. by apply Qmult_le_0_compat.
  - intros x Hx%Is_true_true%Qle_bool_iff.
    apply Is_true_true, Qle_bool_iff.
    unfold Qle in *. simpl in *. nia.
  - intros x y _ Hxy%Is_true_true%Qle_bool_iff.
    apply Is_true_true, Qle_bool_iff. by apply exact_round2_mono.
  - done.
  - intros x _. apply Is_true_true, Qle_bool_iff, exact_round2_twice.
Qed.

End ExactLaws.

(** ** Matched codes *)

Section Matched.
Context {F : Type} `{PyFloat F}.
Implicit Types (services : gmap string (Service.t F)) (packages : list (Package.t F)).
Implicit Types (it : dict F) (w : Env F) (s : Service.t F) (p : Package.t F).

Lemma line_item_None_iff l packages c :
  line_item (F:=F) (services_by_code l) packages c = None ↔
  Forall (λ s, Service.code s ≠ c) l ∧ Forall (λ q, Package.code q ≠ c) packages.
Proof.
  unfold line_item.
  destruct (services_by_code l !! c) as [s|] eqn:Hs.
  - split; [done|]. intros [Hl%services_by_code_None _]. congruence.
  - apply services_by_code_None in Hs.
    rewrite fmap_None, next_package_None. tauto.
Qed.

Lemma line_item_unmatched w c :
  ¬ matches w c →
  line_item (services_by_code (list_services w)) (list_packages w) c = None.
Proof.
  intros Hc. apply line_item_None_iff.
  split; apply Forall_forall; intros x Hx Hcode; apply Hc;
    [left|right]; apply Exists_exists; eauto.
Qed.

Lemma line_item_matched w c :
  matches w c →
  is_Some (line_item (services_by_code (list_services w)) (list_packages w) c).
Proof.
  intros Hc.
  destruct (line_item _ _ c) eqn:Hl; [eauto|].
  apply line_item_None_iff in Hl as [Hs Hp].
  destruct Hc as [(x & Hx & Hcode)%Exists_exists|(x & Hx & Hcode)%Exists_exists].
  - by destruct (proj1 (Forall_forall _ _) Hs x Hx).
  - by destruct (proj1 (Forall_forall _ _) Hp x Hx).
Qed.

(** The codes of the items are the matched codes, in input order. *)
Lemma resolved_items_codes w codes :
  omap item_code (resolved_items w codes) = filter (matches w) codes.
Proof.
  unfold resolved_items.
  induction codes as [|c codes IH]; [done|]. cbn [omap list_omap].
  destruct (decide (matches w c)) as [Hc|Hc].
  - rewrite filter_cons_True by done.
    destruct (line_item_matched w c Hc) as [it Hit]. rewrite Hit.
    cbn [omap list_omap]. rewrite (line_item_code _ _ _ _ Hit). by f_equal.
  - rewrite filter_cons_False by done.
    by rewrite (line_item_unmatched w c Hc).
Qed.

Lemma resolved_items_priced w codes :
  Forall (λ it, is_Some (item_price it)) (resolved_items w codes).
Proof.
  unfold resolved_items. induction codes as [|c codes IH]; [constructor|].
  cbn [omap list_omap].
  destruct (line_item _ _ c) as [it|] eqn:Hit; [|done].
  constructor; [|done]. by eapply line_item_price.
Qed.

Lemma resolved_items_replicate w n c it :
  line_item (services_by_code (list_services w)) (list_packages w) c = Some it →
  resolved_items w (replicate n c) = replicate n it.
Proof.
  intros Hit. unfold resolved_items.
  induction n as [|n IH]; [done|]. cbn [replicate omap list_omap].
  by rewrite Hit, IH.
Qed.

(** The price of every item is the [price_single] of a catalog entry. *)
Lemma resolved_items_prices w codes x :
  x ∈ omap item_price (resolved_items w codes) →
  (∃ s, s ∈ list_services w ∧ Service.price_single s = x) ∨
  (∃ p, p ∈ list_packages w ∧ Package.price_single p = x).
Proof.
  unfold resolved_items. induction codes as [|c codes IH]; cbn [omap list_omap].
  - by intros ?%elem_of_nil.
  - unfold line_item at 1.
    destruct (services_by_code (list_services w) !! c) as [s|] eqn:Hs.
    + cbn [omap list_omap]. rewrite item_price_service.
      intros [->|Hx]%elem_of_cons; [|by apply IH].
      left. exists s. split; [|done]. by eapply services_by_code_Some.
    + destruct (next_package (list_packages w) c) as [p|] eqn:Hp; simpl; [|done].
      rewrite item_price_package.
      intros [->|Hx]%elem_of_cons; [|by apply IH].
      right. exists p. split; [|done].
      apply next_package_Some in Hp as (pre & post & -> & _).
      apply elem_of_app. right. by left.
Qed.

End Matched.

(** ** The promotion flag *)

Section PromoFlag.
Context {F : Type} `{PyFloat F}.
Implicit Types (services : gmap string (Service.t F)) (packages : list (Package.t F)).
Implicit Types (it : dict F) (w : Env F) (s : Service.t F) (p : Package.t F).

Lemma next_package_with_promo b packages c :
  next_package (map (with_promo b) packages) c =
  with_promo b <$> next_package packages c.
Proof.
  unfold next_package. induction packages as [|p packages IH]; simpl; [done|].
  by destruct (Package.code p =? c)%string.
Qed.

Lemma line_item_with_promo b services packages c :
  line_item services (map (with_promo b) packages) c =
  line_item services packages c.
Proof.
  unfold line_item. destruct (services !! c); [done|].
  rewrite next_package_with_promo. by destruct (next_package packages c).
Qed.

(** Catalogs that differ in promotion flags only give the same response. *)
Lemma calculate_price_flag_blind (w1 w2 : Env F) payload :
  list_services w1 = list_services w2 →
  map (with_promo false) (list_packages w1) =
    map (with_promo false) (list_packages w2) →
  calculate_price w1 payload = calculate_price w2 payload.
Proof.
  intros Hs Hp. rewrite !calculate_price_eq.
  assert (∀ codes, resolved_items w1 codes = resolved_items w2 codes) as Hr.
  { intros codes. unfold resolved_items. apply list_omap_ext, Forall2_same_length_lookup.
    split; [done|]. intros i c c' Hc Hc'. assert (c' = c) as -> by congruence.
    rewrite <- (line_item_with_promo false _ (list_packages w1)),
            <- (line_item_with_promo false _ (list_packages w2)).
    by rewrite Hs, Hp. }
  unfold raw_subtotal. by rewrite !Hr.
Qed.

End PromoFlag.

(** ** Bounds *)

Section Bounds.
Context {F : Type} `{PyFloatOrder F}.
Implicit Types (w : Env F).

Local Notation "0.0" := (float_of_int 0).

Lemma float_round2_nonneg x : float_le 0.0 x → float_le 0.0 (float_round2 x).
Proof.
  intros Hx. eapply float_le_trans;
    [apply float_le_zero | apply float_round2_zero |].
  apply float_round2_mono; [apply float_le_zero | done].
Qed.

Lemma float_sum_nonneg acc l :
  float_le 0.0 acc → Forall (λ x, float_le 0.0 x) l →
  float_le 0.0 (float_sum acc l).
Proof.
  intros Hacc Hl. revert acc Hacc. unfold float_sum.
  induction Hl as [|x l Hx _ IH]; intros acc Hacc; simpl; [done|].
  apply IH. by apply float_add_nonneg.
Qed.

(** Every price the loop adds is at least zero when every catalog
    price is. *)
Lemma resolved_prices_nonneg w codes :
  Forall (λ s, float_le 0.0 (Service.price_single s)) (list_services w) →
  Forall (λ p, float_le 0.0 (Package.price_single p)) (list_packages w) →
  Forall (λ x, float_le 0.0 x) (omap item_price (resolved_items w codes)).
Proof.
  intros Hs Hp. apply Forall_forall. intros x Hx.
  apply resolved_items_prices in Hx as [(s & Hin & <-)|(p & Hin & <-)].
  - by apply (proj1 (Forall_forall _ _) Hs).
  - by apply (proj1 (Forall_forall _ _) Hp).
Qed.

Lemma raw_subtotal_nonneg w codes :
  Forall (λ s, float_le 0.0 (Service.price_single s)) (list_services w) →
  Forall (λ p, float_le 0.0 (Package.price_single p)) (list_packages w) →
  float_le 0.0 (raw_subtotal w codes).
Proof.
  intros Hs Hp. apply float_sum_nonneg; [apply float_le_zero|].
  by apply resolved_prices_nonneg.
Qed.

(** The bounds, in any arithmetic with the order laws. *)
Lemma calculate_price_bounds_lawful w (payload : PriceCalcRequest.t) :
  Forall (λ s, float_le 0.0 (Service.price_single s)) (list_services w) →
  Forall (λ p, float_le 0.0 (Package.price_single p)) (list_packages w) →
  ∃ r, calculate_price w payload = Ok r ∧
    float_le 0.0 (PriceCalcResponse.subtotal r) ∧
    float_le 0.0 (PriceCalcResponse.total r) ∧
    float_le (PriceCalcResponse.total r) (PriceCalcResponse.subtotal r).
Proof.
  intros Hs Hp. calc_returns.
  pose proof (raw_subtotal_nonneg w (PriceCalcRequest.selected_codes payload) Hs Hp)
    as Hraw.
  set (s := raw_subtotal w (PriceCalcRequest.selected_codes payload)) in *.
  pose proof (float_round2_nonneg s Hraw) as Hsub.
  split; [done|].
  destruct (PriceCalcRequest.sessions payload =? 8).
  - pose proof (float_mul_0_75_nonneg s Hraw) as Hz.
    pose proof (float_mul_0_75_le s Hraw) as Hzs.
    pose proof (float_round2_nonneg _ Hz) as Hrz.
    pose proof (float_round2_nonneg _ Hrz) as Hrrz.
    split; [done|].
    eapply float_le_trans; [done| |by apply float_round2_twice].
    apply float_round2_mono; [done|]. by apply float_round2_mono.
  - split; [done|]. by apply float_le_refl.
Qed.

End Bounds.

(** Two distinct doubles are told apart by their sign, mantissa and exponent. *)
Lemma float_neq (x y : float) : Prim2SF x ≠ Prim2SF y → x ≠ y.
Proof. intros Hne ->. by apply Hne. Qed.

(** ** The theorems of the specification *)

(** C1, as stated, fails: with one stored service priced 0.046 and
    [sessions = 8], [calculate_price] returns subtotal 0.05 and total
    0.03, while [round(subtotal * 0.75, 2)] of the returned subtotal is
    0.04. The discount is taken from the running sum before it is
    rounded. Prices in whole cents do not avoid it: with stored services
    priced 10.05 and 10.65 the running sum is 20.700000000000003, the
    returned subtotal 20.7 and the total 15.53, while
    [round(20.7 * 0.75, 2)] is 15.52. *)
Lemma calculate_price_promo_total_of_returned_subtotal_fails :
  (∃ r, calculate_price (pydantic_env store_sub_cent)
          (PriceCalcRequest.mk ["X"%string] 8) = Ok r ∧
        PriceCalcResponse.subtotal r = 0.05%float ∧
        PriceCalcResponse.promo_label r = Some "6 + 2 gratis"%string ∧
        PriceCalcResponse.total r = 0.03%float ∧
        float_round2 (float_mul (PriceCalcResponse.subtotal r) float_lit_0_75)
          = 0.04%float ∧
        PriceCalcResponse.total r ≠
          float_round2 (float_mul (PriceCalcResponse.subtotal r) float_lit_0_75)) ∧
  (∃ r, calculate_price (pydantic_env store_cents)
          (PriceCalcRequest.mk ["A"; "B"]%string 8) = Ok r ∧
        raw_subtotal (pydantic_env store_cents) ["A"; "B"]%string
          = 20.700000000000003%float ∧
        PriceCalcResponse.subtotal r = 20.7%float ∧
        PriceCalcResponse.promo_label r = Some "6 + 2 gratis"%string ∧
        PriceCalcResponse.total r = 15.53%float ∧
        float_round2 (float_mul (PriceCalcResponse.subtotal r) float_lit_0_75)
          = 15.52%float ∧
        PriceCalcResponse.total r ≠
          float_round2 (float_mul (PriceCalcResponse.subtotal r) float_lit_0_75)).
Proof.
  split.
  - eexists. split; [vm_compute; reflexivity|].
    repeat split; try (vm_compute; reflexivity).
    apply float_neq. vm_compute. discriminate.
  - eexists. split; [vm_compute; reflexivity|].
    repeat split; try (vm_compute; reflexivity).
    apply float_neq. vm_compute. discriminate.
Qed.

(** C1, amended: for every request, [calculate_price] returns; the
    returned subtotal is [round(s, 2)] for the running sum [s] of the
    matched prices; if [sessions = 8] then [promo_label] is
    ["6 + 2 gratis"] and the total is [round(s * 0.75, 2)], rounded once
    more on return, which for Python floats changes nothing; for
    every other [sessions] value [promo_label] is absent and the total
    equals the returned subtotal. With the seed catalog,
    [calculate(["OKS"], 8)] yields subtotal 39.0, the label, and total
    29.25, which is also [round(39.0 * 0.75, 2)]. *)
Theorem calculate_price_promo :
  (∀ (F : Type) (ops : PyFloat F) (w : Env F) (payload : PriceCalcRequest.t),
     ∃ r, calculate_price w payload = Ok r ∧
       let s := raw_subtotal w (PriceCalcRequest.selected_codes payload) in
       PriceCalcResponse.subtotal r = float_round2 s ∧
       (PriceCalcRequest.sessions payload = 8 →
          PriceCalcResponse.promo_label r = Some "6 + 2 gratis"%string ∧
          PriceCalcResponse.total r =
            float_round2 (float_round2 (float_mul s float_lit_0_75))) ∧
       (PriceCalcRequest.sessions payload ≠ 8 →
          PriceCalcResponse.promo_label r = None ∧
          PriceCalcResponse.total r = PriceCalcResponse.subtotal r)) ∧
  (∀ (w : Env float) (payload : PriceCalcRequest.t),
     PriceCalcRequest.sessions payload = 8 →
     ∃ r, calculate_price w payload = Ok r ∧
       PriceCalcResponse.promo_label r = Some "6 + 2 gratis"%string ∧
       PriceCalcResponse.total r =
         Binary64.round2
           (raw_subtotal w (PriceCalcRequest.selected_codes payload) * 0.75)%float) ∧
  (∀ w : Env float,
     list_services w = DEFAULT_SERVICES →
     list_packages w = DEFAULT_PACKAGES →
     calculate_price w (PriceCalcRequest.mk ["OKS"%string] 8) =
       Ok (PriceCalcResponse.mk
             [list_to_map [("code", VStr "OKS"); ("name", VStr "Oksels");
                           ("price", VFloat 39%float)]%string]
             39%float (Some "6 + 2 gratis"%string) 29.25%float) ∧
     Binary64.round2 (39 * 0.75)%float = 29.25%float).
Proof.
  split; [|split].
  - intros F ops w payload. calc_returns. split; [done|]. split.
    + by intros ->.
    + intros Hne. by apply Z.eqb_neq in Hne as ->.
  - intros w payload H8. calc_returns. rewrite H8. split; [done|].
    apply Binary64Laws.round2_idem.
  - intros w Hs Hp. split; [|vm_compute; reflexivity].
    rewrite calculate_price_eq. unfold raw_subtotal, resolved_items.
    rewrite Hs, Hp. vm_compute. reflexivity.
Qed.

(** The seed catalog is what a resolver over an empty store returns, and
    there the example of C1 evaluates as stated. *)
Lemma calculate_price_promo_witness :
  calculate_price (pydantic_env (F:=float) store_empty)
    (PriceCalcRequest.mk ["OKS"%string] 8) =
  Ok (PriceCalcResponse.mk
        [list_to_map [("code", VStr "OKS"); ("name", VStr "Oksels");
                      ("price", VFloat 39%float)]%string]
        39%float (Some "6 + 2 gratis"%string) 29.25%float).
Proof.
  apply (proj2 (proj2 calculate_price_promo) (pydantic_env store_empty));
    reflexivity.
Defined.

(** C2: [calculate_price] returns, and its items are the line items of
    the selected codes in input order, one per matched occurrence
    (nothing is deduplicated: [n] copies of a matched code give [n] copies
    of its item). A code that some service has yields
    [{code, name: service.name, price: service.price_single}] for a service
    of the catalog with that code, namely the last one in catalog order
    should several share it; a code that no service has and some
    package has yields the item of the first such package in catalog order,
    [{code, name: package.title, price: package.price_single}] marked
    as a package. *)
Theorem calculate_price_line_items :
  ∀ (F : Type) (ops : PyFloat F) (w : Env F) (payload : PriceCalcRequest.t),
    ∃ r, calculate_price w payload = Ok r ∧
      PriceCalcResponse.items r =
        omap (line_item (services_by_code (list_services w)) (list_packages w))
          (PriceCalcRequest.selected_codes payload) ∧
      (∀ c, (∃ s, s ∈ list_services w ∧ Service.code s = c) →
         ∃ s, s ∈ list_services w ∧ Service.code s = c ∧
           line_item (services_by_code (list_services w)) (list_packages w) c =
             Some (list_to_map
                     [("code", VStr c); ("name", VStr (Service.name s));
                      ("price", VFloat (Service.price_single s))]%string)) ∧
      (∀ c pre s post,
         list_services w = pre ++ s :: post →
         Service.code s = c →
         Forall (λ s', Service.code s' ≠ c) post →
         line_item (services_by_code (list_services w)) (list_packages w) c =
           Some (list_to_map
                   [("code", VStr c); ("name", VStr (Service.name s));
                    ("price", VFloat (Service.price_single s))]%string)) ∧
      (∀ c pre p post,
         Forall (λ s, Service.code s ≠ c) (list_services w) →
         list_packages w = pre ++ p :: post →
         Package.code p = c →
         Forall (λ q, Package.code q ≠ c) pre →
         line_item (services_by_code (list_services w)) (list_packages w) c =
           Some (list_to_map
                   [("code", VStr c); ("name", VStr (Package.title p));
                    ("price", VFloat (Package.price_single p));
                    ("package", VBool true)]%string)) ∧
      (∀ n c it,
         line_item (services_by_code (list_services w)) (list_packages w) c = Some it →
         ∃ r', calculate_price w
                 (PriceCalcRequest.mk (replicate n c) (PriceCalcRequest.sessions payload))
               = Ok r' ∧
               PriceCalcResponse.items r' = replicate n it).
Proof.
  intros F ops w payload. calc_returns. split; [done|]. split; [|split; [|split]].
  - intros c [s Hs]%services_by_code_is_Some.
    exists s. apply services_by_code_Some in Hs as Hs'. destruct Hs' as [Hin Hc].
    split; [done|]. split; [done|]. unfold line_item. by rewrite Hs.
  - intros c pre s post Hl <- Hpost.
    unfold line_item. by rewrite Hl, (services_by_code_last pre s post Hpost).
  - intros c pre p post Hsv%services_by_code_None Hpk <- Hpre.
    unfold line_item. rewrite Hsv.
    by rewrite (next_package_first _ _ _ _ Hpk Hpre).
  - intros n c it Hit. calc_returns. by apply resolved_items_replicate.
Qed.

(** On the seed catalog, [calculate(["OKS", "FB-STD", "OKS"], 1)] has
    three items, the service twice and the package marked as such, and
    subtotal 39.0 + 279.0 + 39.0. *)
Lemma calculate_price_line_items_witness :
  ∃ r, calculate_price (pydantic_env (F:=float) store_empty)
         (PriceCalcRequest.mk ["OKS"; "FB-STD"; "OKS"]%string 1) = Ok r ∧
    PriceCalcResponse.items r =
      [list_to_map [("code", VStr "OKS"); ("name", VStr "Oksels");
                    ("price", VFloat 39%float)];
       list_to_map [("code", VStr "FB-STD"); ("name", VStr "Full body");
                    ("price", VFloat 279%float); ("package", VBool true)];
       list_to_map [("code", VStr "OKS"); ("name", VStr "Oksels");
                    ("price", VFloat 39%float)]]%string ∧
    PriceCalcResponse.subtotal r = 357%float.
Proof.
  destruct (calculate_price_line_items float _ (pydantic_env store_empty)
              (PriceCalcRequest.mk ["OKS"; "FB-STD"; "OKS"]%string 1))
    as (r & Hr & Hitems & _).
  exists r. split; [exact Hr|]. split.
  - rewrite Hitems. vm_compute. reflexivity.
  - rewrite calculate_price_eq in Hr. injection Hr as <-. vm_compute. reflexivity.
Defined.

(** C3: [calculate_price] returns; every item has a price; the returned
    subtotal is the sum of the prices of the items, added left to right
    from 0.0 and rounded to two places; the codes of the items are the
    matched selected codes in input order. For the empty selection with
    [sessions = 1] the result is no item, subtotal 0.0, total 0.0 and no
    promo label, in every environment. *)
Theorem calculate_price_subtotal :
  (∀ (F : Type) (ops : PyFloat F) (w : Env F) (payload : PriceCalcRequest.t),
     ∃ r, calculate_price w payload = Ok r ∧
       Forall (λ it, is_Some (item_price it)) (PriceCalcResponse.items r) ∧
       PriceCalcResponse.subtotal r =
         float_round2
           (float_sum (float_of_int 0)
              (omap item_price (PriceCalcResponse.items r))) ∧
       omap item_code (PriceCalcResponse.items r) =
         filter (matches w) (PriceCalcRequest.selected_codes payload)) ∧
  (∀ w : Env float,
     calculate_price w (PriceCalcRequest.mk [] 1) =
       Ok (PriceCalcResponse.mk [] 0%float None 0%float)).
Proof.
  split.
  - intros F ops w payload. calc_returns. split; [apply resolved_items_priced|].
    split; [done|]. apply resolved_items_codes.
  - intros w. rewrite calculate_price_eq. vm_compute. reflexivity.
Qed.

(** C4: [calculate_price] never raises, whatever the selection; a
    selected code that neither a service nor a package has contributes no
    item. If nothing in the catalog has the code ["__nonexistent__"],
    [calculate(["__nonexistent__"], 1)] returns no item, subtotal 0.0 and
    total 0.0. *)
Theorem calculate_price_unmatched :
  (∀ (F : Type) (ops : PyFloat F) (w : Env F) (payload : PriceCalcRequest.t),
     ∃ r, calculate_price w payload = Ok r ∧
       ∀ c, ¬ matches w c →
         Forall (λ it, it !! "code"%string ≠ Some (VStr c))
           (PriceCalcResponse.items r)) ∧
  (∀ w : Env float,
     ¬ matches w "__nonexistent__" →
     calculate_price w (PriceCalcRequest.mk ["__nonexistent__"%string] 1) =
       Ok (PriceCalcResponse.mk [] 0%float None 0%float)).
Proof.
  split.
  - intros F ops w payload. calc_returns.
    intros c Hc. apply Forall_forall. intros it Hit Hcode.
    assert (item_code it = Some c) as Hic by (unfold item_code; by rewrite Hcode).
    assert (c ∈ omap item_code
                  (resolved_items w (PriceCalcRequest.selected_codes payload))) as Hin.
    { apply list_elem_of_omap. eauto. }
    rewrite resolved_items_codes in Hin.
    by apply list_elem_of_filter in Hin as [? _].
  - intros w Hc. rewrite calculate_price_eq.
    unfold raw_subtotal, resolved_items. cbn [PriceCalcRequest.selected_codes omap list_omap].
    rewrite (line_item_unmatched w _ Hc). vm_compute. reflexivity.
Qed.

(** The seed catalog has no code ["__nonexistent__"]. *)
Lemma calculate_price_unmatched_witness :
  calculate_price (pydantic_env (F:=float) store_down)
    (PriceCalcRequest.mk ["__nonexistent__"%string] 1) =
  Ok (PriceCalcResponse.mk [] 0%float None 0%float).
Proof.
  apply (proj2 calculate_price_unmatched (pydantic_env store_down)).
  intros [Hs|Hp].
  - apply Exists_exists in Hs as (s & Hin & Hc). revert Hc.
    vm_compute in Hin. set_unfold. by repeat destruct Hin as [->|Hin].
  - apply Exists_exists in Hp as (p & Hin & Hc). revert Hc.
    vm_compute in Hin. set_unfold. by repeat destruct Hin as [->|Hin].
Defined.

(** C5: for each collection, when the read raises or returns no record,
    the resolver returns the seed list, a constant that does not depend on
    the environment (so two calls, in any two environments where the read
    fails or is empty, return the same list); and the result is never a
    mixture: it is the seed list, or every entry of it is built from one
    stored record, record by record. *)
Theorem resolver_fallback :
  ∀ (F : Type) (ops : PyFloat F),
    (∀ w : Env F,
       (∀ e, get_documents w "service" = Raise e →
             list_services w = DEFAULT_SERVICES) ∧
       (get_documents w "service" = Ok [] → list_services w = DEFAULT_SERVICES) ∧
       (list_services w = DEFAULT_SERVICES ∨
        ∃ docs, get_documents w "service" = Ok docs ∧ docs ≠ [] ∧
          Forall2 (λ d s, Service_init w (project Service.model_fields d) = Ok s)
            docs (list_services w))) ∧
    (∀ w : Env F,
       (∀ e, get_documents w "package" = Raise e →
             list_packages w = DEFAULT_PACKAGES) ∧
       (get_documents w "package" = Ok [] → list_packages w = DEFAULT_PACKAGES) ∧
       (list_packages w = DEFAULT_PACKAGES ∨
        ∃ docs, get_documents w "package" = Ok docs ∧ docs ≠ [] ∧
          Forall2 (λ d p, Package_init w (project Package.model_fields d) = Ok p)
            docs (list_packages w))) ∧
    (∀ w1 w2 : Env F,
       (get_documents w1 "service" = Ok [] ∨ ∃ e, get_documents w1 "service" = Raise e) →
       (get_documents w2 "service" = Ok [] ∨ ∃ e, get_documents w2 "service" = Raise e) →
       list_services w1 = list_services w2) ∧
    (∀ w1 w2 : Env F,
       (get_documents w1 "package" = Ok [] ∨ ∃ e, get_documents w1 "package" = Raise e) →
       (get_documents w2 "package" = Ok [] ∨ ∃ e, get_documents w2 "package" = Raise e) →
       list_packages w1 = list_packages w2).
Proof.
  intros F ops.
  assert (∀ w : Env F,
    get_documents w "service" = Ok [] ∨ (∃ e, get_documents w "service" = Raise e) →
    list_services w = DEFAULT_SERVICES) as Hs.
  { intros w [Hw|[e Hw]]; by rewrite list_services_resolve, Hw. }
  assert (∀ w : Env F,
    get_documents w "package" = Ok [] ∨ (∃ e, get_documents w "package" = Raise e) →
    list_packages w = DEFAULT_PACKAGES) as Hp.
  { intros w [Hw|[e Hw]]; by rewrite list_packages_resolve, Hw. }
  split; [|split; [|split]].
  - intros w. split; [|split].
    + intros e He. apply Hs. eauto.
    + intros He. apply Hs. eauto.
    + rewrite list_services_resolve. apply resolve_all_or_nothing.
  - intros w. split; [|split].
    + intros e He. apply Hp. eauto.
    + intros He. apply Hp. eauto.
    + rewrite list_packages_resolve. apply resolve_all_or_nothing.
  - intros w1 w2 H1 H2. by rewrite (Hs w1 H1), (Hs w2 H2).
  - intros w1 w2 H1 H2. by rewrite (Hp w1 H1), (Hp w2 H2).
Qed.

(** With the store down and with the store empty the services are the
    same seed list. *)
Lemma resolver_fallback_witness :
  list_services (pydantic_env (F:=float) store_down) =
  list_services (pydantic_env (F:=float) store_empty).
Proof.
  apply (proj1 (proj2 (proj2 (resolver_fallback float _)))).
  - right. by exists (PersistenceError "unreachable").
  - by left.
Defined.

(** C6, as stated, fails: the item of the seed package ["FB-STD"] has no
    field [is_package]; the mark is stored under the key ["package"]. *)
Lemma calculate_price_is_package_absent :
  ∃ r it, calculate_price (pydantic_env (F:=float) store_empty)
            (PriceCalcRequest.mk ["FB-STD"%string] 1) = Ok r ∧
          PriceCalcResponse.items r = [it] ∧
          it !! "name"%string = Some (VStr "Full body") ∧
          it !! "price"%string = Some (VFloat 279%float) ∧
          it !! "is_package"%string = None ∧
          it !! "package"%string = Some (VBool true) ∧
          PriceCalcResponse.subtotal r = 279%float ∧
          PriceCalcResponse.total r = 279%float.
Proof.
  eexists _, _. split; [vm_compute; reflexivity|].
  split; [reflexivity|]. repeat split; vm_compute; reflexivity.
Qed.

(** C6, amended: every item [calculate_price] returns carries the code of
    a matched selected code; if a service has that code the item has no
    field ["package"]; otherwise a package has it and the item has the
    field ["package"] set to true. No item has a field ["is_package"]. *)
Theorem calculate_price_package_mark :
  ∀ (F : Type) (ops : PyFloat F) (w : Env F) (payload : PriceCalcRequest.t),
    ∃ r, calculate_price w payload = Ok r ∧
      Forall (λ it,
        it !! "is_package"%string = None ∧
        ∃ c, c ∈ PriceCalcRequest.selected_codes payload ∧
             it !! "code"%string = Some (VStr c) ∧
             ((Exists (λ s, Service.code s = c) (list_services w) ∧
               it !! "package"%string = None) ∨
              (Forall (λ s, Service.code s ≠ c) (list_services w) ∧
               Exists (λ p, Package.code p = c) (list_packages w) ∧
               it !! "package"%string = Some (VBool true))))
        (PriceCalcResponse.items r).
Proof.
  intros F ops w payload. calc_returns.
  apply Forall_forall. intros it (c & Hc & Hit)%list_elem_of_omap.
  unfold line_item in Hit.
  destruct (services_by_code (list_services w) !! c) as [s|] eqn:Hs.
  - injection Hit as <-. split; [done|]. exists c. split; [done|]. split; [done|].
    left. split; [|done].
    apply services_by_code_Some in Hs as [Hin Hcode].
    apply Exists_exists. eauto.
  - destruct (next_package (list_packages w) c) as [p|] eqn:Hp; [|done].
    injection Hit as <-. split; [done|]. exists c. split; [done|]. split; [done|].
    right. split; [by apply services_by_code_None|]. split; [|done].
    apply next_package_Some in Hp as (pre & post & Hl & Hcode & _).
    apply Exists_exists. exists p. split; [|done].
    rewrite Hl. apply elem_of_app. right. by left.
Qed.

(** C7: the keyword arguments a constructor receives are the projection
    of the stored record on the declared fields: a declared key keeps its
    value, any other key is absent. When the read returns one or more
    records, the resolver's result is decided by the constructor applied
    to these projections alone, so two stores whose records agree on the
    declared fields resolve to the same catalog whatever else the records
    carry. *)
Theorem resolver_projects_declared_fields :
  ∀ (F : Type) (ops : PyFloat F),
    (∀ fields (d : dict F) k,
       (k ∈ fields → project fields d !! k = d !! k) ∧
       (k ∉ fields → project fields d !! k = None)) ∧
    (∀ (w : Env F) docs,
       get_documents w "service" = Ok docs → docs ≠ [] →
       list_services w =
         match mapM (Service_init w) (map (project Service.model_fields) docs) with
         | Ok r => r
         | Raise _ => DEFAULT_SERVICES
         end) ∧
    (∀ (w : Env F) docs,
       get_documents w "package" = Ok docs → docs ≠ [] →
       list_packages w =
         match mapM (Package_init w) (map (project Package.model_fields) docs) with
         | Ok r => r
         | Raise _ => DEFAULT_PACKAGES
         end) ∧
    (∀ (w1 w2 : Env F) docs1 docs2,
       Service_init w1 = Service_init w2 →
       get_documents w1 "service" = Ok docs1 →
       get_documents w2 "service" = Ok docs2 →
       Forall2 (λ d1 d2, ∀ k, k ∈ Service.model_fields → d1 !! k = d2 !! k)
         docs1 docs2 →
       list_services w1 = list_services w2) ∧
    (∀ (w1 w2 : Env F) docs1 docs2,
       Package_init w1 = Package_init w2 →
       get_documents w1 "package" = Ok docs1 →
       get_documents w2 "package" = Ok docs2 →
       Forall2 (λ d1 d2, ∀ k, k ∈ Package.model_fields → d1 !! k = d2 !! k)
         docs1 docs2 →
       list_packages w1 = list_packages w2).
Proof.
  intros F ops.
  assert (∀ (A : Type) (init : dict F → exc A) fields (l : list (dict F)),
    mapM (λ d, init (project fields d)) l = mapM init (map (project fields) l))
    as Hm.
  { intros A init fields l. induction l as [|d l IH]; simpl; [done|]. by rewrite IH. }
  split; [|split; [|split; [|split]]].
  - intros fields d k. split.
    + apply project_lookup_declared.
    + apply project_lookup_undeclared.
  - intros w docs Hw Hdocs. rewrite list_services_resolve, Hw. unfold resolve.
    by rewrite bool_decide_eq_true_2, Hm.
  - intros w docs Hw Hdocs. rewrite list_packages_resolve, Hw. unfold resolve.
    by rewrite bool_decide_eq_true_2, Hm.
  - intros w1 w2 docs1 docs2 Hinit H1 H2 Hagree.
    rewrite !list_services_resolve, H1, H2, Hinit. by apply resolve_agree.
  - intros w1 w2 docs1 docs2 Hinit H1 H2 Hagree.
    rewrite !list_packages_resolve, H1, H2, Hinit. by apply resolve_agree.
Qed.

(** The stored service of [store_sub_cent] reaches the constructor
    without its ["_id"], and resolves to one validated entry. *)
Lemma resolver_projects_declared_fields_witness :
  list_services (pydantic_env store_sub_cent) =
  [Service.mk "Zone X" "Test" "X" 0.046%float None 10]%string.
Proof.
  rewrite (proj1 (proj2 (resolver_projects_declared_fields float _))
             (pydantic_env store_sub_cent) _ eq_refl); [|done].
  vm_compute. reflexivity.
Defined.

(** C8: for one environment and one list of selected codes, the items
    and the subtotal returned are the same for any two values of
    [sessions]. *)
Theorem calculate_price_sessions_independent :
  ∀ (F : Type) (ops : PyFloat F) (w : Env F) (codes : list string) (n1 n2 : Z),
    ∃ r1 r2,
      calculate_price w (PriceCalcRequest.mk codes n1) = Ok r1 ∧
      calculate_price w (PriceCalcRequest.mk codes n2) = Ok r2 ∧
      PriceCalcResponse.items r1 = PriceCalcResponse.items r2 ∧
      PriceCalcResponse.subtotal r1 = PriceCalcResponse.subtotal r2.
Proof.
  intros F ops w codes n1 n2. rewrite !calculate_price_eq.
  eexists _, _. by repeat split.
Qed.

(** C9: the response does not depend on any package's [promo_6_plus_2]
    flag: two environments with the same services, and the same packages up
    to these flags, give the same response to every request. With
    [sessions = 8] the label is set and the total is 75% of the running sum
    (rounded), whatever was matched; for the empty selection the items are
    empty and the label is still set; and a stored package whose flag is
    false is discounted like any other: 100.0 becomes 75.0. *)
Theorem calculate_price_ignores_promo_flag :
  (∀ (F : Type) (ops : PyFloat F) (w1 w2 : Env F) (payload : PriceCalcRequest.t),
     list_services w1 = list_services w2 →
     map (with_promo false) (list_packages w1) =
       map (with_promo false) (list_packages w2) →
     calculate_price w1 payload = calculate_price w2 payload) ∧
  (∀ (F : Type) (ops : PyFloat F) (w : Env F) (codes : list string),
     ∃ r, calculate_price w (PriceCalcRequest.mk codes 8) = Ok r ∧
       PriceCalcResponse.promo_label r = Some "6 + 2 gratis"%string ∧
       PriceCalcResponse.total r =
         float_round2 (float_round2
           (float_mul (raw_subtotal w codes) float_lit_0_75))) ∧
  (∀ (F : Type) (ops : PyFloat F) (w : Env F),
     calculate_price w (PriceCalcRequest.mk [] 8) =
       Ok (PriceCalcResponse.mk [] (float_round2 (float_of_int 0))
             (Some "6 + 2 gratis"%string)
             (float_round2 (float_round2
                (float_mul (float_of_int 0) float_lit_0_75))))) ∧
  (list_packages (pydantic_env store_no_promo) =
     [Package.mk "Arms only" None "ARMS" ["ARM-HELE"] 100%float false]%string ∧
   ∃ it, calculate_price (pydantic_env store_no_promo)
           (PriceCalcRequest.mk ["ARMS"%string] 8) =
         Ok (PriceCalcResponse.mk [it] 100%float
               (Some "6 + 2 gratis"%string) 75%float) ∧
         it !! "package"%string = Some (VBool true)).
Proof.
  split; [|split; [|split]].
  - intros F ops w1 w2 payload. apply calculate_price_flag_blind.
  - intros F ops w codes. by calc_returns.
  - intros F ops w. by rewrite calculate_price_eq.
  - split; [vm_compute; reflexivity|].
    eexists. split; vm_compute; reflexivity.
Qed.

(** The package of [store_no_promo] stored without its flag (the flag
    then defaults to true) is priced the same. *)
Lemma calculate_price_ignores_promo_flag_witness :
  calculate_price (pydantic_env store_no_promo)
    (PriceCalcRequest.mk ["ARMS"; "OKS"]%string 8) =
  calculate_price (pydantic_env store_default_promo)
    (PriceCalcRequest.mk ["ARMS"; "OKS"]%string 8).
Proof.
  apply (proj1 calculate_price_ignores_promo_flag); vm_compute; reflexivity.
Defined.

(** C10: for every catalog whose services and packages all have a
    [price_single] that is at least zero, and every request,
    [calculate_price] returns a response with [0 <= subtotal],
    [0 <= total] and [total <= subtotal], the numbers being Python floats
    (IEEE binary64) compared with [<=]. *)
Theorem calculate_price_bounds (w : Env float) (payload : PriceCalcRequest.t) :
  Forall (λ s, (0 <=? Service.price_single s)%float = true) (list_services w) →
  Forall (λ p, (0 <=? Package.price_single p)%float = true) (list_packages w) →
  ∃ r, calculate_price w payload = Ok r ∧
    (0 <=? PriceCalcResponse.subtotal r)%float = true ∧
    (0 <=? PriceCalcResponse.total r)%float = true ∧
    (PriceCalcResponse.total r <=? PriceCalcResponse.subtotal r)%float = true.
Proof.
  intros Hs Hp.
  destruct (calculate_price_bounds_lawful w payload) as (r & Hr & H0 & H1 & H2).
  - eapply Forall_impl; [exact Hs|]. intros s H. by apply Is_true_true.
  - eapply Forall_impl; [exact Hp|]. intros p H. by apply Is_true_true.
  - exists r. split; [done|]. by repeat split; apply Is_true_true.
Qed.

(** The stored service priced 0.046, in eight sessions, is within the
    bounds: subtotal 0.05, total 0.03. *)
Lemma calculate_price_bounds_witness :
  ∃ r, calculate_price (pydantic_env store_sub_cent)
         (PriceCalcRequest.mk ["X"%string] 8) = Ok r ∧
    (0 <=? PriceCalcResponse.subtotal r)%float = true ∧
    (0 <=? PriceCalcResponse.total r)%float = true ∧
    (PriceCalcResponse.total r <=? PriceCalcResponse.subtotal r)%float = true.
Proof.
  apply calculate_price_bounds.
  - vm_compute. repeat constructor.
  - vm_compute. repeat constructor.
Defined.

(** * Further properties of the code *)

(** ** The resolvers: a rejected record, and sizes *)

Section ResolverMore.
Context {F : Type}.
Implicit Types (d : dict F).

(** [mapM] raises as soon as one element does. *)
Lemma mapM_exc_Raise {A B : Type} (f : A → exc B) (l : list A) x e :
  x ∈ l → f x = Raise e → ∃ e', mapM f l = Raise e'.
Proof.
  intros Hin Hx. induction l as [|y l IH]; [by apply elem_of_nil in Hin|].
  apply elem_of_cons in Hin as [<-|Hin]; simpl.
  - rewrite Hx. eauto.
  - destruct (f y); simpl; [|eauto].
    destruct (IH Hin) as [e' ->]. simpl. eauto.
Qed.

Lemma mapM_exc_length {A B : Type} (f : A → exc B) (l : list A) (r : list B) :
  mapM f l = Ok r → length r = length l.
Proof.
  intros Hr%mapM_exc_Ok. by apply Forall2_length in Hr.
Qed.

Lemma resolve_rejected {A : Type} docs (init : dict F → exc A) fields default d e :
  d ∈ docs → init (project fields d) = Raise e →
  resolve (Ok docs) init fields default = default.
Proof.
  intros Hin Hd. unfold resolve.
  destruct (mapM_exc_Raise (λ d, init (project fields d)) docs d e Hin Hd) as [e' ->].
  by destruct (bool_decide _).
Qed.

Lemma resolve_length {A : Type} read (init : dict F → exc A) fields default :
  length (resolve read init fields default) = length default ∨
  ∃ docs, read = Ok docs ∧ docs ≠ [] ∧
    length (resolve read init fields default) = length docs.
Proof.
  unfold resolve. destruct read as [docs|e]; [|by left].
  case_bool_decide as Hne; [|by left].
  destruct (mapM _ docs) as [r|e] eqn:Hr; [|by left].
  right. exists docs. split; [done|]. split; [done|]. by eapply mapM_exc_length.
Qed.

Lemma resolve_nonempty {A : Type} read (init : dict F → exc A) fields default :
  default ≠ [] → resolve read init fields default ≠ [].
Proof.
  intros Hdef Hnil.
  destruct (resolve_length read init fields default) as [Hl|(docs & _ & Hne & Hl)];
    rewrite Hnil in Hl; simpl in Hl.
  - by destruct default.
  - by destruct docs.
Qed.

(** [list_faqs] follows the same pattern once the default entries are
    constructed. *)
Lemma list_faqs_resolve (w : Site F) :
  mapM (FAQ_init w) DEFAULT_FAQ_KWARGS = Ok DEFAULT_FAQS →
  list_faqs w =
  Ok (resolve (get_documents (env w) "faq") (FAQ_init w) FAQ.model_fields DEFAULT_FAQS).
Proof.
  intros Hdef. unfold list_faqs, resolve.
  destruct (get_documents (env w) "faq") as [docs|e]; simpl; [|done].
  case_bool_decide; simpl; [|done].
  by destruct (mapM _ docs).
Qed.

Lemma default_faqs_constructed (w : Site F) :
  (∀ q a, FAQ_init w (list_to_map [("question", VStr q); ("answer", VStr a)]%string)
          = Ok (FAQ.mk q a)) →
  mapM (FAQ_init w) DEFAULT_FAQ_KWARGS = Ok DEFAULT_FAQS.
Proof.
  intros Hinit. unfold DEFAULT_FAQ_KWARGS. cbn [mapM].
  by rewrite !Hinit.
Qed.

End ResolverMore.

(** X1: one stored record that the constructor rejects discards every stored
    record of its collection: [list_services], and likewise
    [list_packages], then return the seed list, whatever the other records
    are. *)
Theorem catalog_rejected_record_discards_all :
  ∀ (F : Type) (ops : PyFloat F) (w : Env F),
    (∀ docs d e,
       get_documents w "service" = Ok docs → d ∈ docs →
       Service_init w (project Service.model_fields d) = Raise e →
       list_services w = DEFAULT_SERVICES) ∧
    (∀ docs d e,
       get_documents w "package" = Ok docs → d ∈ docs →
       Package_init w (project Package.model_fields d) = Raise e →
       list_packages w = DEFAULT_PACKAGES).
Proof.
  intros F ops w. split.
  - intros docs d e Hdocs Hin Hd. rewrite list_services_resolve, Hdocs.
    by eapply resolve_rejected.
  - intros docs d e Hdocs Hin Hd. rewrite list_packages_resolve, Hdocs.
    by eapply resolve_rejected.
Qed.

(** A valid service stored beside one with a negative price is not
    served: the result is the seed list. *)
Lemma catalog_rejected_record_discards_all_witness :
  list_services (pydantic_env store_one_invalid) = DEFAULT_SERVICES.
Proof.
  eapply (proj1 (catalog_rejected_record_discards_all float _
                   (pydantic_env store_one_invalid))).
  - reflexivity.
  - apply (list_elem_of_lookup_2 _ 1%nat). reflexivity.
  - vm_compute. reflexivity.
Defined.

(** X2: the catalog is never empty: [list_services] returns the eleven seed
    services or as many entries as the store returned documents, at least
    one; [list_packages] the two seed packages or as many entries as
    documents. *)
Theorem catalog_never_empty :
  ∀ (F : Type) (ops : PyFloat F) (w : Env F),
    list_services w ≠ [] ∧
    list_packages w ≠ [] ∧
    (length (list_services w) = 11%nat ∨
     ∃ docs, get_documents w "service" = Ok docs ∧ docs ≠ [] ∧
       length (list_services w) = length docs) ∧
    (length (list_packages w) = 2%nat ∨
     ∃ docs, get_documents w "package" = Ok docs ∧ docs ≠ [] ∧
       length (list_packages w) = length docs).
Proof.
  intros F ops w. rewrite list_services_resolve, list_packages_resolve.
  split; [by apply resolve_nonempty|]. split; [by apply resolve_nonempty|].
  split; apply resolve_length.
Qed.

(** X4: [list_faqs], given that the constructor builds an entry from any two
    strings: it returns, never an empty list; it returns the four default
    entries when the read raises, when it returns no document, and when one
    stored document is rejected; otherwise it returns the entries built
    from the stored documents, in stored order. *)
Theorem list_faqs_fallback (F : Type) (w : Site F) :
  (∀ q a, FAQ_init w (list_to_map [("question", VStr q); ("answer", VStr a)]%string)
          = Ok (FAQ.mk q a)) →
  ∃ r, list_faqs w = Ok r ∧ r ≠ [] ∧
    (∀ e, get_documents (env w) "faq" = Raise e → r = DEFAULT_FAQS) ∧
    (get_documents (env w) "faq" = Ok [] → r = DEFAULT_FAQS) ∧
    (∀ docs d e,
       get_documents (env w) "faq" = Ok docs → d ∈ docs →
       FAQ_init w (project FAQ.model_fields d) = Raise e → r = DEFAULT_FAQS) ∧
    (∀ docs fs,
       get_documents (env w) "faq" = Ok docs → docs ≠ [] →
       Forall2 (λ d f, FAQ_init w (project FAQ.model_fields d) = Ok f) docs fs →
       r = fs).
Proof.
  intros Hinit. rewrite (list_faqs_resolve w (default_faqs_constructed w Hinit)).
  eexists. split; [reflexivity|]. split; [by apply resolve_nonempty|].
  split; [|split; [|split]].
  - by intros e ->.
  - by intros ->.
  - intros docs d e -> Hin Hd. by eapply resolve_rejected.
  - intros docs fs -> Hne Hfs. by apply resolve_stored.
Qed.

(** With three stored questions of which the second has no answer, the
    four default entries are returned. *)
Lemma list_faqs_fallback_witness :
  list_faqs (site store_faq_incomplete None (λ _, None)) = Ok DEFAULT_FAQS.
Proof.
  destruct (list_faqs_fallback float (site store_faq_incomplete None (λ _, None)))
    as (r & -> & _ & _ & _ & Hrej & _).
  - intros q a. reflexivity.
  - f_equal. eapply Hrej.
    + reflexivity.
    + apply (list_elem_of_lookup_2 _ 1%nat). reflexivity.
    + vm_compute. reflexivity.
Defined.

(** ** The calculator: selections *)

Section Selections.
Context {F : Type} `{PyFloat F}.
Implicit Types (w : Env F) (codes : list string).

Lemma resolved_items_app w codes1 codes2 :
  resolved_items w (codes1 ++ codes2) =
  resolved_items w codes1 ++ resolved_items w codes2.
Proof. apply omap_app. Qed.

Lemma float_sum_app (acc : F) l1 l2 :
  float_sum acc (l1 ++ l2) = float_sum (float_sum acc l1) l2.
Proof. apply foldl_app. Qed.

Lemma raw_subtotal_app w codes1 codes2 :
  raw_subtotal w (codes1 ++ codes2) =
  float_sum (raw_subtotal w codes1) (omap item_price (resolved_items w codes2)).
Proof.
  unfold raw_subtotal. by rewrite resolved_items_app, omap_app, float_sum_app.
Qed.

Lemma resolved_items_filter w codes :
  resolved_items w (filter (matches w) codes) = resolved_items w codes.
Proof.
  unfold resolved_items. induction codes as [|c codes IH]; [done|].
  destruct (decide (matches w c)) as [Hc|Hc].
  - rewrite filter_cons_True by done. cbn [omap list_omap]. by rewrite IH.
  - rewrite filter_cons_False by done. cbn [omap list_omap].
    by rewrite (line_item_unmatched w c Hc).
Qed.

Lemma resolved_items_length w codes :
  length (resolved_items w codes) = length (filter (matches w) codes).
Proof.
  rewrite <- resolved_items_codes.
  pose proof (resolved_items_priced w codes) as _.
  unfold resolved_items.
  induction codes as [|c codes IH]; [done|]. cbn [omap list_omap].
  destruct (line_item _ _ c) as [it|] eqn:Hit; [|done].
  cbn [omap list_omap]. rewrite (line_item_code _ _ _ _ Hit). simpl. by rewrite IH.
Qed.

Lemma filter_length_eq {A : Type} (P : A → Prop) `{∀ x, Decision (P x)} (l : list A) :
  length (filter P l) = length l ↔ Forall P l.
Proof.
  induction l as [|x l IH]; [by split; [constructor|]|].
  destruct (decide (P x)) as [Hx|Hx].
  - rewrite filter_cons_True by done. simpl. rewrite Forall_cons.
    split; [intros [= Hl]; split; [done|by apply IH] | intros [_ Hl]; f_equal; by apply IH].
  - rewrite filter_cons_False by done. pose proof (length_filter P l). simpl.
    split; [lia|]. by intros [? _]%Forall_cons.
Qed.

End Selections.

(** X9: selected codes that match nothing can be left out of the request:
    the whole response, items, subtotal, label and total, is that of the
    matched codes alone. *)
Theorem calculate_price_unmatched_removable :
  ∀ (F : Type) (ops : PyFloat F) (w : Env F) (codes : list string) (n : Z),
    calculate_price w (PriceCalcRequest.mk codes n) =
    calculate_price w (PriceCalcRequest.mk (filter (matches w) codes) n).
Proof.
  intros F ops w codes n. rewrite !calculate_price_eq.
  cbn [PriceCalcRequest.selected_codes PriceCalcRequest.sessions].
  unfold raw_subtotal. by rewrite resolved_items_filter.
Qed.

(** X10: the response has one item per matched selected code, so never more
    items than selected codes, and as many exactly when every selected
    code is matched. *)
Theorem calculate_price_item_count :
  ∀ (F : Type) (ops : PyFloat F) (w : Env F) (payload : PriceCalcRequest.t),
    ∃ r, calculate_price w payload = Ok r ∧
      length (PriceCalcResponse.items r) =
        length (filter (matches w) (PriceCalcRequest.selected_codes payload)) ∧
      (length (PriceCalcResponse.items r) ≤
         length (PriceCalcRequest.selected_codes payload))%nat ∧
      (length (PriceCalcResponse.items r) =
         length (PriceCalcRequest.selected_codes payload) ↔
       Forall (matches w) (PriceCalcRequest.selected_codes payload)).
Proof.
  intros F ops w payload. calc_returns. rewrite resolved_items_length.
  split; [done|]. split; [apply length_filter|]. apply filter_length_eq.
Qed.

(** X11: the items of two selections put end to end are the items of the
    first followed by the items of the second, and the subtotal is the
    running sum of the first continued with the prices of the second,
    rounded once. *)
Theorem calculate_price_concat :
  ∀ (F : Type) (ops : PyFloat F) (w : Env F) (codes1 codes2 : list string) (n : Z),
    ∃ r1 r2 r,
      calculate_price w (PriceCalcRequest.mk codes1 n) = Ok r1 ∧
      calculate_price w (PriceCalcRequest.mk codes2 n) = Ok r2 ∧
      calculate_price w (PriceCalcRequest.mk (codes1 ++ codes2) n) = Ok r ∧
      PriceCalcResponse.items r =
        PriceCalcResponse.items r1 ++ PriceCalcResponse.items r2 ∧
      PriceCalcResponse.subtotal r =
        float_round2
          (float_sum (raw_subtotal w codes1)
             (omap item_price (PriceCalcResponse.items r2))).
Proof.
  intros F ops w codes1 codes2 n. rewrite !calculate_price_eq.
  eexists _, _, _. split; [reflexivity|]. split; [reflexivity|].
  split; [reflexivity|].
  cbn [PriceCalcResponse.items PriceCalcResponse.subtotal
       PriceCalcRequest.selected_codes].
  split; [apply resolved_items_app|]. by rewrite raw_subtotal_app.
Qed.

(** ** Slices of Python strings *)




(** On a string of ASCII characters a code point is a byte. *)
Lemma py_len_ascii s :
  Forall (λ a, is_continuation a = false) (String.list_ascii_of_string s) →
  py_len s = String.length s.
Proof.
  induction s as [|a s IH]; simpl; [done|].
  intros [-> Hs]%Forall_cons. by rewrite IH.
Qed.

(** ** [test_database] *)

Section Diagnostics.
Context {F : Type}.
Implicit Types (w : Site F).

(** The text reported under ["database"]. *)
Lemma test_database_database w :
  ∃ r, test_database w = Ok r ∧
    r !! "database"%string = Some (VStr
      match db w with
      | None => "⚠️ Available but not initialized"
      | Some d =>
          match Database.list_collection_names d with
          | Ok _ => "✅ Connected & Working"
          | Raise e => "⚠️ Connected but error: " +:+ py_take 80 (str w e)
          end
      end%string).
Proof.
  unfold test_database.
  destruct (db w) as [[[names|e]]|]; eexists; (split; [reflexivity|]); reflexivity.
Qed.

(** The keys of the response. *)
Lemma test_database_keys w :
  ∃ r, test_database w = Ok r ∧
    dom r = list_to_set ["backend"; "database"; "database_url"; "database_name";
                         "connection_status"; "collections"]%string.
Proof.
  unfold test_database.
  destruct (db w) as [[[names|e]]|]; eexists; (split; [reflexivity|]);
    cbv [try_except setitem call mbind stmt_bind mret stmt_ret];
    rewrite ?dom_insert_L, dom_list_to_map_L; set_solver.
Qed.

End Diagnostics.

(** X5: [test_database] never raises and always answers with the same six
    keys; ["backend"] is ["✅ Running"]. The text under ["database"] is
    decided by the handle alone; it is never the initial
    ["❌ Not Available"], never the intermediate ["✅ Connected"], and never
    an ["❌ Error: ..."]: the outer handler cannot be reached. *)
Theorem test_database_status :
  ∀ (F : Type) (w : Site F),
    ∃ r, test_database w = Ok r ∧
      dom r = list_to_set ["backend"; "database"; "database_url"; "database_name";
                           "connection_status"; "collections"]%string ∧
      r !! "backend"%string = Some (VStr "✅ Running") ∧
      r !! "database"%string = Some (VStr
        match db w with
        | None => "⚠️ Available but not initialized"
        | Some d =>
            match Database.list_collection_names d with
            | Ok _ => "✅ Connected & Working"
            | Raise e => "⚠️ Connected but error: " +:+ py_take 80 (str w e)
            end
        end%string) ∧
      r !! "database"%string ≠ Some (VStr "❌ Not Available") ∧
      r !! "database"%string ≠ Some (VStr "✅ Connected") ∧
      (∀ m, r !! "database"%string ≠ Some (VStr ("❌ Error: " +:+ m))).
Proof.
  intros F w.
  destruct (test_database_keys w) as (r & Hr & Hkeys).
  destruct (test_database_database w) as (r' & Hr' & Hdb).
  assert (r' = r) as -> by congruence.
  exists r. split; [done|]. split; [done|].
  split; [|split; [done|]].
  { revert Hr. unfold test_database.
    destruct (db w) as [[[names|e]]|]; intros [= <-]; reflexivity. }
  rewrite Hdb. clear.
  destruct (db w) as [[[names|e]]|];
    (split; [intros [=]|split; [intros [=]|intros m [=]]]).
Qed.

(** X6: ["connection_status"] says whether there is a handle, not whether
    it works; ["collections"] holds the names the handle lists and is
    empty when there is no handle or the listing raises, so a response
    with a collection in it reports ["✅ Connected & Working"]. *)
Theorem test_database_collections :
  ∀ (F : Type) (w : Site F),
    ∃ r, test_database w = Ok r ∧
      r !! "connection_status"%string =
        Some (VStr (if db w is Some _ then "Connected" else "Not Connected")) ∧
      r !! "collections"%string = Some (VList (VStr <$>
        match db w with
        | Some d =>
            match Database.list_collection_names d with
            | Ok names => names
            | Raise _ => []
            end
        | None => []
        end)) ∧
      (∀ v l, r !! "collections"%string = Some (VList (v :: l)) →
         r !! "database"%string = Some (VStr "✅ Connected & Working") ∧
         r !! "connection_status"%string = Some (VStr "Connected")).
Proof.
  intros F w. unfold test_database.
  destruct (db w) as [[[names|e]]|]; eexists; (split; [reflexivity|]);
    (split; [reflexivity|]); (split; [reflexivity|]); intros v l Hl; try done.
Qed.

(** X7: the two environment variables are reported as set exactly when they
    hold a string that is not empty, and nothing else of them reaches
    the response: two sites with the same handle whose variables are set
    or not alike answer alike, whatever the values. *)
Theorem test_database_environment :
  ∀ (F : Type) (w : Site F),
    (∃ r, test_database w = Ok r ∧
       r !! "database_url"%string = Some (VStr
         match getenv w "DATABASE_URL" with
         | Some (String _ _) => "✅ Set"
         | _ => "❌ Not Set"
         end) ∧
       r !! "database_name"%string = Some (VStr
         match getenv w "DATABASE_NAME" with
         | Some (String _ _) => "✅ Set"
         | _ => "❌ Not Set"
         end)) ∧
    (∀ w' : Site F,
       db w' = db w → str w' = str w →
       truthy (getenv w' "DATABASE_URL") = truthy (getenv w "DATABASE_URL") →
       truthy (getenv w' "DATABASE_NAME") = truthy (getenv w "DATABASE_NAME") →
       test_database w' = test_database w).
Proof.
  intros F w. split.
  - unfold test_database.
    destruct (db w) as [[[names|e]]|]; eexists; (split; [reflexivity|]);
      (split; [destruct (getenv w "DATABASE_URL") as [[|]|]
              |destruct (getenv w "DATABASE_NAME") as [[|]|]]); reflexivity.
  - intros w' Hdb Hstr Hurl Hname. unfold test_database.
    by rewrite Hdb, Hstr, Hurl, Hname.
Qed.

(** A site whose database URL holds a password answers as one whose
    URL is any other string. *)
Lemma test_database_environment_witness :
  test_database
    (site store_empty None
       (λ k, if String.eqb k "DATABASE_URL" then Some "mongodb://u:secret@h" else None)%string) =
  test_database
    (site store_empty None
       (λ k, if String.eqb k "DATABASE_URL" then Some "x" else None)%string).
Proof.
  apply (proj2 (test_database_environment float _)); reflexivity.
Defined.



(** ** The calculator over any store *)

Section Constructed.
Context {F : Type} `{PyFloat F}.
Implicit Types (w : Env F).

(** Every entry of a resolved catalog is a seed entry or was returned by
    the constructor. *)
Lemma list_services_constructed w s :
  s ∈ list_services w →
  s ∈ DEFAULT_SERVICES ∨ ∃ kw, Service_init w kw = Ok s.
Proof.
  rewrite list_services_resolve.
  destruct (resolve_all_or_nothing (get_documents w "service") (Service_init w)
              Service.model_fields DEFAULT_SERVICES) as [->|(docs & _ & _ & Hr)];
    [by left|].
  intros Hin. right.
  apply list_elem_of_lookup_1 in Hin as [i Hi].
  destruct (Forall2_lookup_r _ _ _ _ _ Hr Hi) as (d & _ & Hd). eauto.
Qed.

Lemma list_packages_constructed w p :
  p ∈ list_packages w →
  p ∈ DEFAULT_PACKAGES ∨ ∃ kw, Package_init w kw = Ok p.
Proof.
  rewrite list_packages_resolve.
  destruct (resolve_all_or_nothing (get_documents w "package") (Package_init w)
              Package.model_fields DEFAULT_PACKAGES) as [->|(docs & _ & _ & Hr)];
    [by left|].
  intros Hin. right.
  apply list_elem_of_lookup_1 in Hin as [i Hi].
  destruct (Forall2_lookup_r _ _ _ _ _ Hr Hi) as (d & _ & Hd). eauto.
Qed.

(** A property of the seed entries that the constructors enforce holds
    of every entry of the catalog. *)
Lemma list_services_Forall w (P : Service.t F → Prop) :
  Forall P DEFAULT_SERVICES →
  (∀ kw s, Service_init w kw = Ok s → P s) →
  Forall P (list_services w).
Proof.
  intros Hdef Hinit. apply Forall_forall. intros s Hs.
  destruct (list_services_constructed w s Hs) as [Hin|[kw Hkw]]; [|eauto].
  by apply (proj1 (Forall_forall _ _) Hdef).
Qed.

Lemma list_packages_Forall w (P : Package.t F → Prop) :
  Forall P DEFAULT_PACKAGES →
  (∀ kw p, Package_init w kw = Ok p → P p) →
  Forall P (list_packages w).
Proof.
  intros Hdef Hinit. apply Forall_forall. intros p Hp.
  destruct (list_packages_constructed w p Hp) as [Hin|[kw Hkw]]; [|eauto].
  by apply (proj1 (Forall_forall _ _) Hdef).
Qed.

End Constructed.

(** The seed prices are at least zero. *)
Lemma DEFAULT_SERVICES_nonneg :
  Forall (λ s : Service.t float, float_le (float_of_int 0) (Service.price_single s))
    DEFAULT_SERVICES.
Proof. repeat constructor. Qed.

Lemma DEFAULT_PACKAGES_nonneg :
  Forall (λ p : Package.t float, float_le (float_of_int 0) (Package.price_single p))
    DEFAULT_PACKAGES.
Proof. repeat constructor. Qed.

(** ** Sums and products of floats that are at least zero *)

Module Binary64Sums.
Import Binary64 Binary64Laws.

(** [binary_round] gives the double nearest to [m * 2^e]. *)
Lemma binary_round_exact s m e :
  -1074 ≤ e →
  binary_round prec emax s m e =
  of_ulps s (nearest_ulps (Zpos m * 2 ^ (e + 1074)) 1).
Proof.
  intros He. unfold binary_round, shl_align.
  set (E := fexp prec emax (Zpos (digits2_pos m) + e)).
  assert (-1074 ≤ E) as HE by (subst E; rewrite fexp_eq; lia).
  destruct (E - e) as [|d|d] eqn:Hd.
  - rewrite binary_round_aux_exact; first last.
    { change (Zdigits2 (Zpos m)) with (Zpos (digits2_pos m)). fold E. clearbody E. lia. }
    { done. }
    unfold nearest_dyadic. by rewrite (proj2 (Z.leb_le 0 (e + 1074))) by lia.
  - rewrite binary_round_aux_exact; first last.
    { change (Zdigits2 (Zpos m)) with (Zpos (digits2_pos m)). fold E. clearbody E. lia. }
    { done. }
    unfold nearest_dyadic. by rewrite (proj2 (Z.leb_le 0 (e + 1074))) by lia.
  - rewrite binary_round_aux_exact; first last.
    { rewrite Zdigits2_log2, pos_iter_xO by done.
      rewrite Z.log2_mul_pow2 by lia.
      subst E. rewrite !digits2_pos_log2 in *. rewrite !fexp_eq in *.
      change (Zneg d) with (- Zpos d) in Hd. lia. }
    { done. }
    unfold nearest_dyadic. rewrite (proj2 (Z.leb_le 0 (E + 1074))) by lia.
    f_equal. rewrite pos_iter_xO, <- Z.mul_assoc, <- Z.pow_add_r by lia.
    change (Zneg d) with (- Zpos d) in Hd. clearbody E.
    by replace (Zpos d + (E + 1074)) with (e + 1074) by lia.
Qed.

(** Aligning a mantissa to a lower exponent keeps the magnitude. *)
Lemma shl_align_ulps m e e' :
  -1074 ≤ e' ≤ e →
  Zpos (fst (shl_align m e e')) * 2 ^ (e' + 1074) = ulps m e.
Proof.
  intros He. unfold shl_align, ulps.
  destruct (e' - e) as [|d|d] eqn:Hd; cbn [fst].
  - by replace e' with e by lia.
  - lia.
  - change (Zneg d) with (- Zpos d) in Hd.
    unfold shift_pos. rewrite pos_iter_xO, <- Z.mul_assoc, <- Z.pow_add_r by lia.
    by replace (Zpos d + (e' + 1074)) with (e + 1074) by lia.
Qed.

(** The sum of two finite doubles that are at least zero is the double
    nearest to the sum of their magnitudes. *)
Lemma SFadd_finite mx ex my ey :
  bounded prec emax mx ex = true → bounded prec emax my ey = true →
  SFadd prec emax (S754_finite false mx ex) (S754_finite false my ey) =
  of_ulps false (nearest_ulps (ulps mx ex + ulps my ey) 1).
Proof.
  intros Hx%bounded_iff Hy%bounded_iff. cbn [SFadd cond_Zopp].
  unfold binary_normalize. rewrite <- Pos2Z.inj_add.
  rewrite binary_round_exact by lia.
  rewrite Pos2Z.inj_add, Z.mul_add_distr_r.
  by rewrite !shl_align_ulps by lia.
Qed.

Lemma saturate_mono n1 n2 : n1 ≤ n2 → saturate n1 ≤ saturate n2.
Proof.
  assert ((2:Z) ^ 2098 < 2 ^ 2100) by done.
  unfold saturate. intros Hn.
  destruct (Z.ltb_spec n1 (2 ^ 2098)), (Z.ltb_spec n2 (2 ^ 2098)); lia.
Qed.

Lemma representable_0 : representable 0.
Proof. exists 0, 0. repeat split; done. Qed.

Lemma representable_inf : representable (2 ^ 2100).
Proof. exists (2 ^ 52), 2048. repeat split; done. Qed.

Lemma magnitude_representable x :
  valid_binary x = true → representable (magnitude x).
Proof.
  destruct x as [s|s| |s m e]; cbn [magnitude valid_binary].
  - intros _. apply representable_0.
  - intros _. apply representable_inf.
  - intros _. apply representable_0.
  - intros (Hu & He & Hm & Hnorm)%ulps_representable.
    exists (Zpos m), (e + 1074). repeat split; try lia; done.
Qed.

Lemma magnitude_saturated x :
  valid_binary x = true → saturate (magnitude x) = magnitude x.
Proof.
  assert ((2:Z) ^ 2098 < 2 ^ 2100) by done.
  unfold saturate.
  destruct x as [s|s| |s m e]; cbn [magnitude valid_binary]; try done.
  intros Hb%ulps_bounds. destruct (Z.ltb_spec (ulps m e) (2 ^ 2098)); lia.
Qed.

Lemma saturate_large n : 2 ^ 2098 ≤ n → saturate n = 2 ^ 2100.
Proof. unfold saturate. intros Hn. by destruct (Z.ltb_spec n (2 ^ 2098)); [lia|]. Qed.

Lemma nearest_ulps_large n : 2 ^ 2098 ≤ n → 2 ^ 2098 ≤ nearest_ulps n 1.
Proof.
  intros Hn.
  assert (representable (2 ^ 2098)) as Hrep.
  { exists (2 ^ 52), 2046. repeat split; done. }
  rewrite <- (nearest_ulps_id _ Hrep) at 1.
  apply nearest_ulps_mono; lia.
Qed.

(** The magnitude of a sum of two floats that are at least zero. *)
Lemma SFadd_magnitude x y :
  valid_binary x = true → valid_binary y = true → nonneg x → nonneg y →
  magnitude (SFadd prec emax x y) =
  saturate (nearest_ulps (magnitude x + magnitude y) 1).
Proof.
  intros Hvx Hvy Hx%nonneg_cases Hy%nonneg_cases.
  destruct x as [sx|sx| |sx mx ex]; [| |destruct Hx|];
    (destruct y as [sy|sy| |sy my ey]; [| |destruct Hy|]); subst;
    cbn [magnitude].
  - transitivity 0; [by destruct sx, sy|]. symmetry.
    by rewrite Z.add_0_l, (nearest_ulps_id 0 representable_0).
  - cbn [SFadd magnitude]. symmetry. apply saturate_large, nearest_ulps_large. lia.
  - cbn [SFadd magnitude]. rewrite Z.add_0_l.
    rewrite nearest_ulps_id by apply (magnitude_representable _ Hvy).
    symmetry. apply (magnitude_saturated _ Hvy).
  - cbn [SFadd magnitude]. symmetry. apply saturate_large, nearest_ulps_large. lia.
  - cbn [SFadd magnitude Bool.eqb]. symmetry.
    apply saturate_large, nearest_ulps_large.
    assert ((0:Z) ≤ 2 ^ 2100) by (apply Z.pow_nonneg; lia).
    assert ((2:Z) ^ 2098 ≤ 2 ^ 2100) by (apply Z.pow_le_mono_r; lia). lia.
  - cbn [SFadd magnitude]. symmetry. apply saturate_large, nearest_ulps_large.
    pose proof (ulps_bounds _ _ Hvy).
    assert ((2:Z) ^ 2098 ≤ 2 ^ 2100) by (apply Z.pow_le_mono_r; lia). lia.
  - cbn [SFadd magnitude]. rewrite Z.add_0_r.
    rewrite nearest_ulps_id by apply (magnitude_representable _ Hvx).
    symmetry. apply (magnitude_saturated _ Hvx).
  - cbn [SFadd magnitude]. symmetry. apply saturate_large, nearest_ulps_large.
    pose proof (ulps_bounds _ _ Hvx).
    assert ((2:Z) ^ 2098 ≤ 2 ^ 2100) by (apply Z.pow_le_mono_r; lia). lia.
  - rewrite SFadd_finite by done.
    pose proof (ulps_bounds _ _ Hvx). pose proof (ulps_bounds _ _ Hvy).
    rewrite magnitude_of_ulps; [done|].
    apply nearest_ulps_representable; lia.
Qed.

(** The magnitude of a product with 0.75. *)
Lemma SFmul_0_75_magnitude x :
  valid_binary x = true → nonneg x →
  magnitude (SFmul prec emax x (S754_finite false 6755399441055744 (-53))) =
  saturate (nearest_ulps (3 * magnitude x) 4).
Proof.
  intros Hvx Hx%nonneg_cases.
  assert ((0:Z) < 2 ^ 2098) as H98 by done.
  assert ((2:Z) ^ 2098 < 2 ^ 2100) as H100 by done.
  destruct x as [sx|sx| |sx mx ex]; [| |done|]; subst.
  - reflexivity.
  - cbn [SFmul magnitude xorb]. symmetry. apply saturate_large.
    apply Z.le_trans with (nearest_ulps (2 ^ 2098) 1); [by apply nearest_ulps_large|].
    apply nearest_ulps_mono; lia.
  - rewrite SFmul_0_75 by done. cbn [magnitude].
    pose proof (ulps_bounds _ _ Hvx).
    rewrite magnitude_of_ulps; [done|].
    apply nearest_ulps_representable; lia.
Qed.

(** Addition and the product with 0.75 are monotone on floats that are
    at least zero. *)
Lemma fadd_mono (x y x' y' : float) :
  fle (of_int 0) x → fle (of_int 0) y → fle x x' → fle y y' →
  fle (x + y)%float (x' + y')%float.
Proof.
  rewrite !fle_0_nonneg, !fle_spec, !add_spec. intros Hx Hy Hxx Hyy.
  pose proof (SFleb_nonneg_r _ _ Hx Hxx) as Hx'.
  pose proof (SFleb_nonneg_r _ _ Hy Hyy) as Hy'.
  pose proof (Prim2SF_valid x) as Hvx. pose proof (Prim2SF_valid y) as Hvy.
  pose proof (Prim2SF_valid x') as Hvx'. pose proof (Prim2SF_valid y') as Hvy'.
  apply nonneg_le in Hxx; [|done..]. apply nonneg_le in Hyy; [|done..].
  pose proof (Prim2SF_valid (x + y)) as Hv. pose proof (Prim2SF_valid (x' + y')) as Hv'.
  rewrite add_spec in Hv, Hv'.
  apply nonneg_le; [done|done|by apply SFadd_nonneg|by apply SFadd_nonneg|].
  rewrite !SFadd_magnitude by done.
  pose proof (magnitude_nonneg _ Hvx). pose proof (magnitude_nonneg _ Hvy).
  apply saturate_mono, nearest_ulps_mono; lia.
Qed.

Lemma fmul_0_75_mono (x y : float) :
  fle (of_int 0) x → fle x y → fle (x * 0.75)%float (y * 0.75)%float.
Proof.
  rewrite !fle_0_nonneg, !fle_spec, !mul_spec, lit_0_75. intros Hx Hxy.
  pose proof (SFleb_nonneg_r _ _ Hx Hxy) as Hy.
  pose proof (Prim2SF_valid x) as Hvx. pose proof (Prim2SF_valid y) as Hvy.
  apply nonneg_le in Hxy; [|done..].
  pose proof (Prim2SF_valid (x * 0.75)) as Hv. pose proof (Prim2SF_valid (y * 0.75)) as Hv'.
  rewrite mul_spec, lit_0_75 in Hv, Hv'.
  apply nonneg_le; [done|done|by apply SFmul_0_75_nonneg|by apply SFmul_0_75_nonneg|].
  rewrite !SFmul_0_75_magnitude by done.
  pose proof (magnitude_nonneg _ Hvx).
  apply saturate_mono, nearest_ulps_mono; lia.
Qed.

(** Adding a float that is at least zero does not lower a sum. *)
Lemma fadd_le_l (a x : float) :
  fle (of_int 0) a → fle (of_int 0) x → fle a (a + x)%float.
Proof.
  rewrite !fle_0_nonneg, !fle_spec, !add_spec. intros Ha Hx.
  pose proof (Prim2SF_valid a) as Hva. pose proof (Prim2SF_valid x) as Hvx.
  pose proof (Prim2SF_valid (a + x)) as Hv. rewrite add_spec in Hv.
  apply nonneg_le; [done|done|done|by apply SFadd_nonneg|].
  rewrite SFadd_magnitude by done.
  rewrite <- (magnitude_saturated _ Hva) at 1.
  rewrite <- (nearest_ulps_id (magnitude (Prim2SF a))) at 1
    by by apply magnitude_representable.
  pose proof (magnitude_nonneg _ Hva). pose proof (magnitude_nonneg _ Hvx).
  apply saturate_mono, nearest_ulps_mono; lia.
Qed.

(** [float(n)] of a natural number is at least zero. *)
Lemma of_int_nonneg n : 0 ≤ n → fle (of_int 0) (of_int n).
Proof.
  intros Hn. destruct n as [|p|p]; [reflexivity| |lia].
  apply fle_0_nonneg. unfold of_int. cbn [binary_normalize].
  rewrite binary_round_exact by lia.
  rewrite Prim2SF_SF2Prim.
  - apply of_ulps_nonneg.
  - apply of_ulps_valid, nearest_ulps_representable; [|lia].
    apply Z.mul_nonneg_nonneg; [lia|]. apply Z.pow_nonneg. lia.
Qed.

End Binary64Sums.

(** ** The calculator on Python floats, over any store *)

Section AnyStore.
Import Binary64 Binary64Laws Binary64Sums.
Implicit Types (w : Env float) (codes : list string).

Local Notation "0.0" := (of_int 0).

(** What the validators of the concrete evaluations accept has a price
    that is at least zero. *)
Lemma as_float_ge0_nonneg (v : value float) x :
  as_float_ge0 v = Ok x → fle 0.0 x.
Proof.
  destruct v as [|b|n|y|s|l]; simpl; try done.
  - destruct (Z.leb_spec 0 n) as [Hn|]; [|done]. intros [= <-].
    by apply of_int_nonneg.
  - destruct (PrimFloat.leb _ y) eqn:Hy; [|done]. by intros [= <-].
Qed.

Lemma Service_validate_nonneg (kw : dict float) s :
  Service_validate kw = Ok s → fle 0.0 (Service.price_single s).
Proof.
  unfold Service_validate. intros Hs.
  repeat match type of Hs with
         | context [mbind _ ?m] =>
             let E := fresh "E" in
             destruct m eqn:E; cbn [mbind exc_bind] in Hs; [|discriminate]
         end.
  injection Hs as <-. cbn [Service.price_single].
  unfold field_float_ge0 in *.
  destruct (kw !! "price_single"%string); [|done]. by eapply as_float_ge0_nonneg.
Qed.

Lemma Package_validate_nonneg (kw : dict float) p :
  Package_validate kw = Ok p → fle 0.0 (Package.price_single p).
Proof.
  unfold Package_validate. intros Hp.
  repeat match type of Hp with
         | context [mbind _ ?m] =>
             let E := fresh "E" in
             destruct m eqn:E; cbn [mbind exc_bind] in Hp; [|discriminate]
         end.
  injection Hp as <-. cbn [Package.price_single].
  unfold field_float_ge0 in *.
  destruct (kw !! "price_single"%string); [|done]. by eapply as_float_ge0_nonneg.
Qed.

(** The prices of a catalog built by constructors that enforce [ge=0]. *)
Lemma catalog_prices_nonneg w :
  (∀ kw s, Service_init w kw = Ok s → fle 0.0 (Service.price_single s)) →
  (∀ kw p, Package_init w kw = Ok p → fle 0.0 (Package.price_single p)) →
  Forall (λ s, float_le 0.0 (Service.price_single s)) (list_services w) ∧
  Forall (λ p, float_le 0.0 (Package.price_single p)) (list_packages w).
Proof.
  intros Hs Hp. split.
  - apply list_services_Forall; [apply DEFAULT_SERVICES_nonneg|].
    intros kw s Hkw. apply Is_true_true. by eapply Hs.
  - apply list_packages_Forall; [apply DEFAULT_PACKAGES_nonneg|].
    intros kw p Hkw. apply Is_true_true. by eapply Hp.
Qed.

(** A longer list of prices has a larger running sum. *)
Lemma float_sum_sublist (l l' : list float) (acc acc' : float) :
  l `sublist_of` l' → Forall (fle 0.0) l' →
  fle 0.0 acc → fle acc acc' →
  fle (float_sum acc l) (float_sum acc' l').
Proof.
  intros Hsub. revert acc acc'.
  induction Hsub as [|x l l' _ IH|x l l' _ IH]; intros acc acc' Hl' Hacc Hle.
  - done.
  - apply Forall_cons in Hl' as [Hx Hl']. cbn [float_sum foldl].
    apply IH; [done|by apply fadd_nonneg|].
    apply fadd_mono; [done|done|done|by apply fle_refl].
  - apply Forall_cons in Hl' as [Hx Hl']. cbn [float_sum foldl].
    apply IH; [done|done|].
    apply fle_trans with acc'; [done|done|].
    apply fadd_le_l; [|done]. by apply fle_trans with acc.
Qed.

Lemma omap_sublist {A B : Type} (f : A → option B) (l l' : list A) :
  l `sublist_of` l' → omap f l `sublist_of` omap f l'.
Proof.
  induction 1 as [|x l l' _ IH|x l l' _ IH]; cbn [omap list_omap].
  - constructor.
  - destruct (f x); [by constructor|done].
  - destruct (f x); [by constructor|done].
Qed.

Lemma raw_subtotal_sublist w codes codes' :
  Forall (λ s, float_le 0.0 (Service.price_single s)) (list_services w) →
  Forall (λ p, float_le 0.0 (Package.price_single p)) (list_packages w) →
  codes `sublist_of` codes' →
  fle (raw_subtotal w codes) (raw_subtotal w codes').
Proof.
  intros Hs Hp Hsub. unfold raw_subtotal.
  apply float_sum_sublist.
  - unfold resolved_items. by do 2 apply omap_sublist.
  - eapply Forall_impl; [by apply (resolved_prices_nonneg w codes')|].
    intros x Hx. by apply Is_true_true.
  - reflexivity.
  - reflexivity.
Qed.

End AnyStore.

(** X14: whatever the store holds, when the constructors enforce the declared
    bound [price_single >= 0], every response has [0 <= subtotal],
    [0 <= total] and [total <= subtotal]: the catalog is the seed catalog
    or was built by the constructors, entry by entry. *)
Theorem calculate_price_bounds_any_store (w : Env float) (payload : PriceCalcRequest.t) :
  (∀ kw s, Service_init w kw = Ok s → (0 <=? Service.price_single s)%float = true) →
  (∀ kw p, Package_init w kw = Ok p → (0 <=? Package.price_single p)%float = true) →
  ∃ r, calculate_price w payload = Ok r ∧
    (0 <=? PriceCalcResponse.subtotal r)%float = true ∧
    (0 <=? PriceCalcResponse.total r)%float = true ∧
    (PriceCalcResponse.total r <=? PriceCalcResponse.subtotal r)%float = true.
Proof.
  intros Hs Hp. destruct (catalog_prices_nonneg w Hs Hp) as [Hs' Hp'].
  destruct (calculate_price_bounds_lawful w payload Hs' Hp') as (r & Hr & H0 & H1 & H2).
  exists r. split; [done|]. by repeat split; apply Is_true_true.
Qed.

(** The store with one valid and one rejected service answers within
    the bounds. *)
Lemma calculate_price_bounds_any_store_witness :
  ∃ r, calculate_price (pydantic_env store_one_invalid)
         (PriceCalcRequest.mk ["OKS"; "A"]%string 8) = Ok r ∧
    (0 <=? PriceCalcResponse.subtotal r)%float = true ∧
    (0 <=? PriceCalcResponse.total r)%float = true ∧
    (PriceCalcResponse.total r <=? PriceCalcResponse.subtotal r)%float = true.
Proof.
  apply calculate_price_bounds_any_store.
  - intros kw s. apply Service_validate_nonneg.
  - intros kw p. apply Package_validate_nonneg.
Defined.

(** X15: with eight sessions the total is never above the total of the same
    selection with any other number of sessions, whatever the store holds,
    when the constructors enforce [price_single >= 0]. *)
Theorem calculate_price_promo_never_dearer (w : Env float) (codes : list string) (n : Z) :
  (∀ kw s, Service_init w kw = Ok s → (0 <=? Service.price_single s)%float = true) →
  (∀ kw p, Package_init w kw = Ok p → (0 <=? Package.price_single p)%float = true) →
  ∃ r8 rn,
    calculate_price w (PriceCalcRequest.mk codes 8) = Ok r8 ∧
    calculate_price w (PriceCalcRequest.mk codes n) = Ok rn ∧
    (PriceCalcResponse.total r8 <=? PriceCalcResponse.total rn)%float = true.
Proof.
  intros Hs Hp. destruct (catalog_prices_nonneg w Hs Hp) as [Hs' Hp'].
  destruct (calculate_price_bounds_lawful w (PriceCalcRequest.mk codes 8) Hs' Hp')
    as (r8 & Hr8 & H0 & H1 & H2).
  exists r8. rewrite Hr8. rewrite calculate_price_eq in Hr8 |- *.
  eexists. split; [done|]. split; [reflexivity|].
  injection Hr8 as <-.
  cbn [PriceCalcResponse.total PriceCalcResponse.subtotal
       PriceCalcRequest.selected_codes PriceCalcRequest.sessions] in *.
  destruct (Z.eqb_spec n 8) as [->|Hn].
  - apply Is_true_true in H1. by apply Binary64Laws.fle_refl.
  - by apply Is_true_true.
Qed.

(** A service stored at 10.05: eight sessions cost 7.54, one 10.05. *)
Lemma calculate_price_promo_never_dearer_witness :
  ∃ r8 rn,
    calculate_price (pydantic_env store_cents) (PriceCalcRequest.mk ["A"%string] 8) = Ok r8 ∧
    calculate_price (pydantic_env store_cents) (PriceCalcRequest.mk ["A"%string] 1) = Ok rn ∧
    (PriceCalcResponse.total r8 <=? PriceCalcResponse.total rn)%float = true.
Proof.
  apply calculate_price_promo_never_dearer.
  - intros kw s. apply Service_validate_nonneg.
  - intros kw p. apply Package_validate_nonneg.
Defined.

(** X16: selecting more never lowers the amounts: when the selection [codes]
    is [codes'] with some codes left out, anywhere, the subtotal and the
    total of [codes] are at most those of [codes'], for the same number
    of sessions, whatever the store holds, when the constructors enforce
    [price_single >= 0]. *)
Theorem calculate_price_monotone (w : Env float) (codes codes' : list string) (n : Z) :
  (∀ kw s, Service_init w kw = Ok s → (0 <=? Service.price_single s)%float = true) →
  (∀ kw p, Package_init w kw = Ok p → (0 <=? Package.price_single p)%float = true) →
  codes `sublist_of` codes' →
  ∃ r r',
    calculate_price w (PriceCalcRequest.mk codes n) = Ok r ∧
    calculate_price w (PriceCalcRequest.mk codes' n) = Ok r' ∧
    (PriceCalcResponse.subtotal r <=? PriceCalcResponse.subtotal r')%float = true ∧
    (PriceCalcResponse.total r <=? PriceCalcResponse.total r')%float = true.
Proof.
  intros Hs Hp Hsub. destruct (catalog_prices_nonneg w Hs Hp) as [Hs' Hp'].
  rewrite !calculate_price_eq. eexists _, _. split; [reflexivity|]. split; [reflexivity|].
  cbn [PriceCalcResponse.total PriceCalcResponse.subtotal
       PriceCalcRequest.selected_codes PriceCalcRequest.sessions].
  pose proof (raw_subtotal_sublist w codes codes' Hs' Hp' Hsub) as Hle.
  pose proof (raw_subtotal_nonneg w codes Hs' Hp') as H0. apply Is_true_true in H0.
  set (s := raw_subtotal w codes) in *. set (s' := raw_subtotal w codes') in *.
  split; [by apply Binary64Laws.round2_mono|].
  destruct (n =? 8).
  - pose proof (Binary64Laws.fmul_0_75_nonneg s H0) as Hz.
    pose proof (Binary64Sums.fmul_0_75_mono s s' H0 Hle) as Hzz.
    apply Binary64Laws.round2_mono.
    + apply Binary64Laws.fle_0_nonneg, Binary64Laws.round2_nonneg.
      by apply Binary64Laws.fle_0_nonneg.
    + by apply Binary64Laws.round2_mono.
  - by apply Binary64Laws.round2_mono.
Qed.

(** With services stored at 10.05 and 10.65, the second alone costs
    no more than both. *)
Lemma calculate_price_monotone_witness :
  ∃ r r',
    calculate_price (pydantic_env store_cents) (PriceCalcRequest.mk ["B"%string] 8) = Ok r ∧
    calculate_price (pydantic_env store_cents) (PriceCalcRequest.mk ["A"; "B"]%string 8) = Ok r' ∧
    (PriceCalcResponse.subtotal r <=? PriceCalcResponse.subtotal r')%float = true ∧
    (PriceCalcResponse.total r <=? PriceCalcResponse.total r')%float = true.
Proof.
  apply calculate_price_monotone.
  - intros kw s. apply Service_validate_nonneg.
  - intros kw p. apply Package_validate_nonneg.
  - apply sublist_cons, sublist_skip, sublist_nil.
Defined.

(** ** What the calculator reads of the catalog *)

Section Views.
Context {F : Type} `{PyFloat F}.
Implicit Types (w : Env F) (s : Service.t F) (p : Package.t F).

Lemma foldl_insert_view (l1 l2 : list (Service.t F)) (m1 m2 : gmap string (Service.t F)) c :
  service_view <$> l1 = service_view <$> l2 →
  service_view <$> (m1 !! c) = service_view <$> (m2 !! c) →
  service_view <$> (foldl (λ m s, <[Service.code s := s]> m) m1 l1 !! c) =
  service_view <$> (foldl (λ m s, <[Service.code s := s]> m) m2 l2 !! c).
Proof.
  revert l2 m1 m2.
  induction l1 as [|s1 l1 IH]; intros [|s2 l2] m1 m2 Hl Hm; try done.
  injection Hl as Hc Hn Hpr Hl. cbn [foldl]. apply IH; [done|].
  rewrite Hc. destruct (decide (Service.code s2 = c)) as [->|Hne].
  - rewrite !lookup_insert_eq. simpl. unfold service_view. by rewrite Hc, Hn, Hpr.
  - by rewrite !lookup_insert_ne.
Qed.

Lemma services_by_code_view (l1 l2 : list (Service.t F)) c :
  service_view <$> l1 = service_view <$> l2 →
  service_view <$> (services_by_code l1 !! c) =
  service_view <$> (services_by_code l2 !! c).
Proof. intros Hl. by apply foldl_insert_view. Qed.

Lemma next_package_view (l1 l2 : list (Package.t F)) c :
  package_view <$> l1 = package_view <$> l2 →
  package_view <$> next_package l1 c = package_view <$> next_package l2 c.
Proof.
  unfold next_package. revert l2.
  induction l1 as [|p1 l1 IH]; intros [|p2 l2] Hl; try done.
  injection Hl as Hc Hn Hpr Hl. cbn [find]. rewrite Hc.
  destruct (String.eqb _ c); [|by apply IH].
  simpl. unfold package_view. by rewrite Hc, Hn, Hpr.
Qed.

Lemma line_item_view (l1 l2 : list (Service.t F)) (k1 k2 : list (Package.t F)) c :
  service_view <$> l1 = service_view <$> l2 →
  package_view <$> k1 = package_view <$> k2 →
  line_item (services_by_code l1) k1 c = line_item (services_by_code l2) k2 c.
Proof.
  intros Hl Hk. unfold line_item.
  pose proof (services_by_code_view l1 l2 c Hl) as Hs.
  pose proof (next_package_view k1 k2 c Hk) as Hp.
  destruct (services_by_code l1 !! c) as [s1|], (services_by_code l2 !! c) as [s2|];
    try done.
  - injection Hs as Hc Hn Hpr. unfold service_item. by rewrite Hn, Hpr.
  - destruct (next_package k1 c) as [p1|], (next_package k2 c) as [p2|]; try done.
    injection Hp as Hc Hn Hpr. simpl. unfold package_item. by rewrite Hn, Hpr.
Qed.

End Views.

(** X12: the calculator reads of a service its code, name and price, and of a
    package its code, title and price, nothing else: two catalogs that
    agree on these give the same response to every request. Category,
    duration, six-session price, description and included codes are not
    read, so a package is charged in full beside a service it includes. *)
Theorem calculate_price_reads_code_name_price :
  ∀ (F : Type) (ops : PyFloat F) (w1 w2 : Env F) (payload : PriceCalcRequest.t),
    service_view <$> list_services w1 = service_view <$> list_services w2 →
    package_view <$> list_packages w1 = package_view <$> list_packages w2 →
    calculate_price w1 payload = calculate_price w2 payload.
Proof.
  intros F ops w1 w2 payload Hs Hp. rewrite !calculate_price_eq.
  assert (∀ codes, resolved_items w1 codes = resolved_items w2 codes) as Hr.
  { intros codes. unfold resolved_items.
    induction codes as [|c codes IH]; [done|]. cbn [omap list_omap].
    by rewrite (line_item_view _ _ _ _ c Hs Hp), IH. }
  unfold raw_subtotal. by rewrite !Hr.
Qed.

(** The same two services stored with other categories, durations and
    six-session prices are priced the same. *)
Lemma calculate_price_reads_code_name_price_witness :
  calculate_price (pydantic_env store_cents)
    (PriceCalcRequest.mk ["A"; "B"; "FB-STD"]%string 8) =
  calculate_price (pydantic_env store_cents_other)
    (PriceCalcRequest.mk ["A"; "B"; "FB-STD"]%string 8).
Proof.
  apply calculate_price_reads_code_name_price; vm_compute; reflexivity.
Defined.

(** X13: the amounts of a response are rounded: [round(_, 2)] of the
    subtotal is the subtotal, and of the total the total. *)
Theorem calculate_price_amounts_rounded :
  ∀ (w : Env float) (payload : PriceCalcRequest.t),
    ∃ r, calculate_price w payload = Ok r ∧
      Binary64.round2 (PriceCalcResponse.subtotal r) = PriceCalcResponse.subtotal r ∧
      Binary64.round2 (PriceCalcResponse.total r) = PriceCalcResponse.total r.
Proof.
  intros w payload. calc_returns. split; apply Binary64Laws.round2_idem.
Qed.

(** ** The catalog and the declared bounds *)

Lemma DEFAULT_SERVICES_within_bounds :
  Forall (service_within_bounds (F:=float)) DEFAULT_SERVICES.
Proof. repeat constructor; done. Qed.

Lemma Service_validate_within_bounds (kw : dict float) s :
  Service_validate kw = Ok s → service_within_bounds s.
Proof.
  intros Hs. split.
  { apply Is_true_true. by eapply Service_validate_nonneg. }
  revert Hs. unfold Service_validate. intros Hs.
  repeat match type of Hs with
         | context [mbind _ ?m] =>
             let E := fresh "E" in
             destruct m eqn:E; cbn [mbind exc_bind] in Hs; [|discriminate]
         end.
  injection Hs as <-. cbn [Service.price_package_6x Service.duration_min]. split.
  - intros x ->.
    destruct (kw !! "price_package_6x"%string) as [v|]; [|done].
    destruct v; try done;
      match goal with
      | H : mbind _ ?m = _ |- _ =>
          destruct m eqn:Hv; cbn [mbind exc_bind] in H; [|discriminate];
          injection H as ->; apply Is_true_true; by eapply as_float_ge0_nonneg
      end.
  - destruct (kw !! "duration_min"%string) as [[| |n| | |]|]; try done.
    destruct (Z.leb_spec 5 n); [|done]. congruence.
Qed.

(** X3: every entry of the catalog is within the bounds its schema declares,
    whatever the store holds, when the constructors enforce them: a price
    at least zero, a duration of at least five minutes, a six-session
    price absent or at least zero. The seed entries are. *)
Theorem catalog_within_declared_bounds (w : Env float) :
  (∀ kw s, Service_init w kw = Ok s → service_within_bounds s) →
  (∀ kw p, Package_init w kw = Ok p → package_within_bounds p) →
  Forall service_within_bounds (list_services w) ∧
  Forall package_within_bounds (list_packages w).
Proof.
  intros Hs Hp. split.
  - apply list_services_Forall; [apply DEFAULT_SERVICES_within_bounds|done].
  - apply list_packages_Forall; [apply DEFAULT_PACKAGES_nonneg|done].
Qed.

Lemma catalog_within_declared_bounds_witness :
  Forall service_within_bounds (list_services (pydantic_env store_cents_other)) ∧
  Forall package_within_bounds (list_packages (pydantic_env store_cents_other)).
Proof.
  apply catalog_within_declared_bounds.
  - apply Service_validate_within_bounds.
  - intros kw p Hp. unfold package_within_bounds. apply Is_true_true.
    exact (Package_validate_nonneg kw p Hp).
Defined.

(** ** The seed catalog *)

(** X17: when both reads fail or return nothing, each package of the catalog
    costs less than the services it includes selected one by one: every
    included code is the code of a service, none is dropped, and subtotal
    and total of the package alone are below those of its parts. *)
Theorem fallback_package_below_its_parts (w : Env float) (p : Package.t float) (n : Z) :
  (get_documents w "service" = Ok [] ∨ ∃ e, get_documents w "service" = Raise e) →
  (get_documents w "package" = Ok [] ∨ ∃ e, get_documents w "package" = Raise e) →
  p ∈ list_packages w →
  ∃ rp rs,
    calculate_price w (PriceCalcRequest.mk [Package.code p] n) = Ok rp ∧
    calculate_price w (PriceCalcRequest.mk (Package.included_codes p) n) = Ok rs ∧
    length (PriceCalcResponse.items rp) = 1%nat ∧
    length (PriceCalcResponse.items rs) = length (Package.included_codes p) ∧
    Forall (λ it, it !! "package"%string = None) (PriceCalcResponse.items rs) ∧
    (PriceCalcResponse.subtotal rp <? PriceCalcResponse.subtotal rs)%float = true ∧
    (PriceCalcResponse.total rp <? PriceCalcResponse.total rs)%float = true.
Proof.
  intros Hs Hp.
  assert (list_services w = DEFAULT_SERVICES) as Hs'.
  { rewrite list_services_resolve. by destruct Hs as [->|[e ->]]. }
  assert (list_packages w = DEFAULT_PACKAGES) as Hp'.
  { rewrite list_packages_resolve. by destruct Hp as [->|[e ->]]. }
  rewrite !calculate_price_eq. unfold raw_subtotal, resolved_items.
  rewrite Hs', Hp'. intros Hin.
  eexists _, _. split; [reflexivity|]. split; [reflexivity|].
  cbn [PriceCalcResponse.items PriceCalcResponse.subtotal PriceCalcResponse.total
       PriceCalcRequest.selected_codes PriceCalcRequest.sessions].
  apply elem_of_cons in Hin as [->|Hin]; [|apply elem_of_cons in Hin as [->|Hin]];
    [| |by apply elem_of_nil in Hin];
    (split; [reflexivity|]); (split; [reflexivity|]);
    (split; [repeat constructor|]);
    destruct (n =? 8); split; vm_compute; reflexivity.
Qed.

(** With the store down, "Full body" is below its four parts. *)
Lemma fallback_package_below_its_parts_witness :
  ∃ rp rs,
    calculate_price (pydantic_env store_down) (PriceCalcRequest.mk ["FB-STD"%string] 1)
      = Ok rp ∧
    calculate_price (pydantic_env store_down)
      (PriceCalcRequest.mk ["ARM-HELE"; "OKS"; "BEN-HELE"; "BIK-K"]%string 1) = Ok rs ∧
    PriceCalcResponse.subtotal rp = 279%float ∧
    PriceCalcResponse.subtotal rs = 306%float.
Proof.
  destruct (fallback_package_below_its_parts (pydantic_env store_down)
              (Package.mk "Full body"
                 (Some "Hele armen + oksels + buik + hele benen + bikinilijn klein")
                 "FB-STD" ["ARM-HELE"; "OKS"; "BEN-HELE"; "BIK-K"] 279%float true)%string 1)
    as (rp & rs & Hrp & Hrs & _).
  - right. by eexists.
  - right. by eexists.
  - left.
  - exists rp, rs. split; [exact Hrp|]. split; [exact Hrs|].
    rewrite calculate_price_eq in Hrp, Hrs.
    injection Hrp as <-. injection Hrs as <-. split; vm_compute; reflexivity.
Defined.
